(** * CODEOWNERS validator: path normalisation, rule matching, relevance
      and the validation run of [src/lib/validator.ts].

    Strings are JavaScript strings restricted to code units below 256, held
    as [list ascii]; a string literal is read through
    [list_ascii_of_string].  Rule counters are JavaScript numbers that only
    ever hold small naturals and are held as [nat]. *)

From Stdlib Require Import List Ascii String Bool Arith Lia Permutation.
Import ListNotations.
Local Open Scope string_scope.
Local Open Scope list_scope.
Local Open Scope bool_scope.

Definition str := list ascii.
Coercion list_ascii_of_string : string >-> list.

(** ** JavaScript string primitives used by the validator *)

Module JS.

Definition LF : ascii := "010"%char.
Definition slash : ascii := "/"%char.
Definition backslash : ascii := "\"%char.

(** [a === b] on strings. *)
Fixpoint eqb (a b : str) : bool :=
  match a, b with
  | [], [] => true
  | x :: a', y :: b' => Ascii.eqb x y && eqb a' b'
  | _, _ => false
  end.

(** [s.startsWith(pre)]. *)
Fixpoint startsWith (s pre : str) : bool :=
  match pre, s with
  | [], _ => true
  | p :: pre', c :: s' => Ascii.eqb p c && startsWith s' pre'
  | _ :: _, [] => false
  end.

(** [s.includes(c)] for a one-character needle. *)
Definition includes (s : str) (c : ascii) : bool :=
  existsb (Ascii.eqb c) s.

(** [s.split(sep)] for a one-character separator: never the empty array. *)
Fixpoint split (sep : ascii) (s : str) : list str :=
  match s with
  | [] => [[]]
  | c :: t =>
      if Ascii.eqb c sep then [] :: split sep t
      else match split sep t with
           | seg :: rest => (c :: seg) :: rest
           | [] => [[c]]
           end
  end.

(** [parts.join(sep)]. *)
Fixpoint join (sep : str) (parts : list str) : str :=
  match parts with
  | [] => []
  | [p] => p
  | p :: rest => p ++ sep ++ join sep rest
  end.

(** White space of [String.prototype.trim] among the code units below 256:
    TAB, LF, VT, FF, CR, SPACE and NBSP. *)
Definition isWhiteSpace (c : ascii) : bool :=
  let n := nat_of_ascii c in
  ((9 <=? n)%nat && (n <=? 13)%nat) || (n =? 32)%nat || (n =? 160)%nat.

Fixpoint trimStart (s : str) : str :=
  match s with
  | [] => []
  | c :: t => if isWhiteSpace c then trimStart t else s
  end.

Definition trimEnd (s : str) : str := rev (trimStart (rev s)).

Definition trim (s : str) : str := trimEnd (trimStart s).

(** [s.replace(/^pre/, '')] for a literal prefix. *)
Definition dropPrefix (pre s : str) : str :=
  if startsWith s pre then skipn (List.length pre) s else s.

(** [s.replace(/\/+$/, '')]: the whole trailing run of slashes goes. *)
Fixpoint dropTrailingSlashes (s : str) : str :=
  match s with
  | [] => []
  | c :: t =>
      match dropTrailingSlashes t with
      | [] => if Ascii.eqb c slash then [] else [c]
      | t' => c :: t'
      end
  end.

(** [s.replace(/\/$/, '')]: at most one trailing slash goes. *)
Fixpoint dropLastSlash (s : str) : str :=
  match s with
  | [] => []
  | [c] => if Ascii.eqb c slash then [] else [c]
  | c :: t => c :: dropLastSlash t
  end.

(** [s.replace(/\\/g, '/')]. *)
Definition backslashesToSlashes (s : str) : str :=
  map (fun c => if Ascii.eqb c backslash then slash else c) s.

End JS.

(** ** The glob matcher the validator imports

    [validator.ts] imports [minimatch] from the npm package of that name and
    calls it with the default options or with [{matchBase: true}].  The
    package is a dependency and not part of the source tree: the validator
    takes the function as a parameter, and [Minimatch] below gives the
    instance the matching theorems are about. *)

Record MinimatchOptions := { matchBase : bool }.

Definition defaults : MinimatchOptions := {| matchBase := false |}.

(** The imported function, as the validator uses it: a total test.  The
    package throws on a pattern of more than 65536 characters; such rules
    are left out. *)
Class GlobMatcher := { minimatch : str -> str -> MinimatchOptions -> bool }.

(** The package's matcher (as of minimatch 9, on POSIX, every option but
    [matchBase] at its default) for patterns built from literal characters,
    [*], [?] and [**]: the split of pattern and path on runs of slashes, the
    leading [!] negation, the [#] comments, the removal of [..] portions and
    of repeated [**] portions, the rule for names that begin with a dot, and
    [matchOne].  Brace expansion, bracket classes and extglobs are left out:
    a pattern with a brace, a bracket or a parenthesis is not covered
    ([supported]). *)
Module Minimatch.

Inductive part :=
| GLOBSTAR
| Literal (s : str)
| Pattern (glob : str).

Definition isMagic (c : ascii) : bool :=
  Ascii.eqb c "*"%char || Ascii.eqb c "?"%char.

Definition startsWithDot (f : str) : bool :=
  match f with
  | c :: _ => Ascii.eqb c "."%char
  | [] => false
  end.

(** [slashSplit]: [p.split(/\/+/)]. *)
Fixpoint slashSplit (p : str) : list str :=
  match p with
  | [] => [[]]
  | c :: t =>
      if Ascii.eqb c JS.slash then
        match t with
        | c' :: _ => if Ascii.eqb c' JS.slash then slashSplit t
                     else [] :: slashSplit t
        | [] => [] :: slashSplit t
        end
      else match slashSplit t with
           | seg :: rest => (c :: seg) :: rest
           | [] => [[c]]
           end
  end.

(** [parseNegate]: every leading [!] flips the negation and is dropped. *)
Fixpoint parseNegate (pattern : str) : bool * str :=
  match pattern with
  | c :: t =>
      if Ascii.eqb c "!"%char
      then let (negate, rest) := parseNegate t in (negb negate, rest)
      else (false, pattern)
  | [] => (false, pattern)
  end.

(** One step of the [reduce] of [levelOneOptimize]; [set] is held with its
    last element first. *)
Definition levelOneStep (set : list str) (part : str) : list str :=
  match set with
  | prev :: set' =>
      if JS.eqb part "**" && JS.eqb prev "**" then set
      else if JS.eqb part ".." && negb (JS.eqb prev "")
              && negb (JS.eqb prev "..") && negb (JS.eqb prev ".")
              && negb (JS.eqb prev "**")
      then set'
      else part :: set
  | [] => [part]
  end.

Definition levelOneOptimize (parts : list str) : list str :=
  match rev (fold_left levelOneStep parts []) with
  | [] => [[]]
  | ps => ps
  end.

(** [parse] of one path portion. *)
Definition parse (pattern : str) : part :=
  if JS.eqb pattern "**" then GLOBSTAR
  else if JS.eqb pattern "" then Literal ""
  else if existsb isMagic pattern then Pattern pattern
  else Literal pattern.

(** The body of the regular expression of a portion: [*] is [[^/]*?],
    [?] is [[^/]], any other character stands for itself. *)
Fixpoint wild (glob f : str) {struct glob} : bool :=
  match glob with
  | [] => match f with [] => true | _ :: _ => false end
  | g :: glob' =>
      if Ascii.eqb g "*"%char then
        (fix star (f : str) : bool :=
           wild glob' f ||
           match f with
           | [] => false
           | c :: f' => negb (Ascii.eqb c JS.slash) && star f'
           end) f
      else
        match f with
        | [] => false
        | c :: f' =>
            (if Ascii.eqb g "?"%char then negb (Ascii.eqb c JS.slash)
             else Ascii.eqb g c)
            && wild glob' f'
        end
  end.

(** The portion starts with [.] or [..] and then a wildcard. *)
Definition dotThenMagic (glob : str) : bool :=
  match glob with
  | d :: m :: rest =>
      Ascii.eqb d "."%char
      && (isMagic m
          || (Ascii.eqb m "."%char
              && match rest with m' :: _ => isMagic m' | [] => false end))
  | _ => false
  end.

(** The lookahead put in front of the regular expression: a portion that
    starts with a wildcard does not match a leading dot, and one that starts
    with a dot and then a wildcard matches neither [.] nor [..]. *)
Definition startGuard (glob f : str) : bool :=
  match glob with
  | g :: _ =>
      if isMagic g then negb (startsWithDot f)
      else if dotThenMagic glob
           then negb (JS.eqb f ".") && negb (JS.eqb f "..")
           else true
  | [] => true
  end.

(** [re.test(f)] for a portion with wildcards; a portion made of stars only
    takes the package's fast path, which also refuses the empty name. *)
Definition test (glob f : str) : bool :=
  if forallb (Ascii.eqb "*"%char) glob
  then negb (JS.eqb f "") && negb (startsWithDot f)
  else startGuard glob f && wild glob f.

(** [matchOne(file, pattern, partial = false)]. *)
Fixpoint matchOne (file : list str) (pattern : list part) {struct pattern}
  : bool :=
  match pattern with
  | [] =>
      match file with
      | [] => true
      | [f] => JS.eqb f ""
      | _ => false
      end
  | p :: rest =>
      match p with
      | GLOBSTAR =>
          match file with
          | [] => false
          | _ :: _ =>
              match rest with
              | [] => forallb (fun f => negb (startsWithDot f)) file
              | _ :: _ =>
                  (fix swallow (file : list str) : bool :=
                     match file with
                     | [] => false
                     | swallowee :: file' =>
                         matchOne file rest
                         || (negb (startsWithDot swallowee) && swallow file')
                     end) file
              end
          end
      | Literal s =>
          match file with
          | [] => false
          | f :: file' => JS.eqb f s && matchOne file' rest
          end
      | Pattern glob =>
          match file with
          | [] => false
          | f :: file' => test glob f && matchOne file' rest
          end
      end
  end.

(** The last non-empty portion of the path, [""] when there is none. *)
Definition filename (ff : list str) : str :=
  fold_left (fun found seg => match seg with [] => found | _ => seg end)
            ff [].

(** Modelled from the spec: [minimatch(p, pattern, options)] of the npm
    package [minimatch], which the source imports and the source tree does
    not hold.  The spec asks for shell-glob matching over [/]-delimited
    segments with [**] and base-name matching; the steps are those of the
    package: comment, empty pattern, negation, the set of parsed portions,
    base-name matching, [matchOne]. *)
Definition minimatch (p pattern : str) (options : MinimatchOptions) : bool :=
  if JS.startsWith pattern "#" then false
  else if JS.eqb pattern "" then JS.eqb p ""
  else
    let (negate, positive) := parseNegate pattern in
    let set := map parse (levelOneOptimize (slashSplit positive)) in
    let ff := slashSplit p in
    let file :=
      if matchBase options && (List.length set =? 1)%nat
      then [filename ff] else ff in
    if matchOne file set then negb negate else negate.

(** The patterns the model covers. *)
Definition supported (pattern : str) : bool :=
  forallb (fun c => negb (existsb (Ascii.eqb c)
                                  ("{}[]()" : str))) pattern.

End Minimatch.

#[export] Instance npm_minimatch : GlobMatcher :=
  {| minimatch := Minimatch.minimatch |}.

(** ** [validator.ts] *)

(** A [Map<string, number>]: the entries in insertion order, keys distinct. *)
Definition RuleMap := list (str * nat).

Fixpoint map_get (k : str) (m : RuleMap) : option nat :=
  match m with
  | [] => None
  | (k', v) :: m' => if JS.eqb k k' then Some v else map_get k m'
  end.

(** [m.set(k, v)]: an existing key keeps its place, a new one goes last. *)
Fixpoint map_set (k : str) (v : nat) (m : RuleMap) : RuleMap :=
  match m with
  | [] => [(k, v)]
  | (k', v') :: m' =>
      if JS.eqb k k' then (k', v) :: m' else (k', v') :: map_set k v m'
  end.

Definition keys (m : RuleMap) : list str := map fst m.

Definition isValidCodeOwnersLine (line : str) : bool :=
  negb (JS.startsWith line "#") && (0 <? List.length (JS.trim line))%nat.

(** [const [pathPattern] = line.split(' ')]. *)
Definition pathPattern (line : str) : str :=
  hd [] (JS.split " "%char line).

(** [parseCodeOwnersFile], from the lines the reader yields. *)
Definition parseCodeOwnersFile (lines : list str) : RuleMap :=
  fold_left
    (fun rules line =>
       if isValidCodeOwnersLine line then map_set (pathPattern line) 0 rules
       else rules)
    lines [].

(** What [readdir(path, {withFileTypes: true})] finds: a directory is either
    listed or cannot be read. *)
Inductive dir :=
| Listing (items : list (str * node))
| Unreadable
with node :=
| RegularFile
| Directory (d : dir)
| OtherNode.

(** [Promise.all] over optional results: one failure fails the whole. *)
Fixpoint allOrNothing {A : Type} (results : list (option A)) : option (list A) :=
  match results with
  | [] => Some []
  | None :: _ => None
  | Some x :: rest =>
      match allOrNothing rest with
      | Some xs => Some (x :: xs)
      | None => None
      end
  end.

(** [getAllFiles(directoryPath)], on the directory found at that path. *)
Fixpoint getAllFiles (directoryPath : str) (d : dir) : option (list str) :=
  match d with
  | Unreadable => None
  | Listing items =>
      let files :=
        (fix files (items : list (str * node)) : list str :=
           match items with
           | [] => []
           | (name, RegularFile) :: rest =>
               (directoryPath ++ "/" ++ name) :: files rest
           | _ :: rest => files rest
           end) items in
      let nestedFiles :=
        (fix nested (items : list (str * node)) : list (option (list str)) :=
           match items with
           | [] => []
           | (name, Directory d') :: rest =>
               getAllFiles (directoryPath ++ "/" ++ name) d' :: nested rest
           | _ :: rest => nested rest
           end) items in
      match allOrNothing nestedFiles with
      | Some nested => Some (files ++ List.concat nested)
      | None => None
      end
  end.

(** The file system as the run sees it: the directory behind each root. *)
Definition FileSystem := str -> dir.

Definition scanAllFiles (fs : FileSystem) (rootFolders : list str)
  : option (list str) :=
  match allOrNothing (map (fun folder => getAllFiles folder (fs folder))
                          rootFolders) with
  | Some allFiles => Some (List.concat allFiles)
  | None => None
  end.

Definition normalizePath (p : str) : str :=
  JS.backslashesToSlashes
    (JS.dropTrailingSlashes
       (JS.dropPrefix "/" (JS.dropPrefix "./" p))).

Inductive error :=
| IOError
| ValidationError (message : str).

Inductive outcome :=
| Resolved
| Thrown (e : error).

Section Validator.

Context `{GlobMatcher}.

Definition ruleMatchesPath (rule filePath : str) : bool :=
  let cleanRule := normalizePath rule in
  let cleanPath := normalizePath filePath in
  let hasGlob := JS.includes cleanRule "*"%char in
  if hasGlob then minimatch cleanPath cleanRule {| matchBase := true |}
  else minimatch cleanPath cleanRule defaults
       || minimatch cleanPath (cleanRule ++ "/**") defaults.

(** The body of the loop of [isRuleRelevantToFolders] for one folder:
    [true] where the source returns [true]. *)
Definition relevantToFolder (cleanRule folder : str) : bool :=
  let cleanFolder := normalizePath folder in
  if JS.startsWith cleanRule (cleanFolder ++ "/") || JS.eqb cleanRule cleanFolder
  then true
  else if JS.startsWith cleanFolder (cleanRule ++ "/")
          || JS.eqb cleanFolder cleanRule
  then true
  else if JS.includes cleanRule "*"%char then
    if minimatch cleanFolder cleanRule {| matchBase := true |} then true
    else
      let ruleBase := JS.dropLastSlash (hd [] (JS.split "*"%char cleanRule)) in
      negb (JS.eqb ruleBase "")
      && (JS.startsWith cleanFolder (ruleBase ++ "/")
          || JS.eqb cleanFolder ruleBase)
  else false.

Fixpoint relevantLoop (cleanRule : str) (folders : list str) : bool :=
  match folders with
  | [] => false
  | folder :: rest =>
      if relevantToFolder cleanRule folder then true
      else relevantLoop cleanRule rest
  end.

Definition isRuleRelevantToFolders (rule : str) (folders : list str) : bool :=
  relevantLoop (normalizePath rule) folders.

(** [checkOwnership]: the loop visits the keys in order and reads each
    count from the map it updates. *)
Definition checkOwnership (filePath : str) (rules : RuleMap)
  : bool * RuleMap :=
  fold_left
    (fun (st : bool * RuleMap) rule =>
       let (owned, rules) := st in
       match map_get rule rules with
       | Some count =>
           if ruleMatchesPath rule filePath
           then (true, map_set rule (count + 1) rules)
           else st
       | None => st
       end)
    (keys rules) (false, rules).

(** [allFilePaths.filter(filePath => !checkOwnership(filePath, rules))],
    with the map the calls leave behind. *)
Fixpoint filterUncovered (allFilePaths : list str) (rules : RuleMap)
  : list str * RuleMap :=
  match allFilePaths with
  | [] => ([], rules)
  | filePath :: rest =>
      let (owned, rules') := checkOwnership filePath rules in
      let (uncovered, rules'') := filterUncovered rest rules' in
      (if owned then uncovered else filePath :: uncovered, rules'')
  end.

Definition unusedRulesOf (rules : RuleMap) (foldersToValidate : list str)
  : list str :=
  map fst
      (filter (fun entry : str * nat =>
                 let (rule, count) := entry in
                 (count =? 0)%nat
                 && isRuleRelevantToFolders rule foldersToValidate)
              rules).

Record Report := { unusedRules : list str; uncoveredFiles : list str }.

(** The two lists [validateCodeOwners] computes once both promises hold. *)
Definition computeReport (rules : RuleMap) (foldersToValidate : list str)
           (allFilePaths : list str) : Report :=
  let (uncovered, counted) := filterUncovered allFilePaths rules in
  {| unusedRules := unusedRulesOf counted foldersToValidate;
     uncoveredFiles := uncovered |}.

Definition bullet (s : str) : str := "  - " ++ s.

Definition errorMessages (r : Report) : list str :=
  (match unusedRules r with
   | [] => []
   | _ :: _ =>
       ["CODEOWNERS contains rules that do not match any files in the specified folders:" : str]
         ++ map bullet (unusedRules r)
         ++ ["" : str;
             "Please remove these entries or verify the paths exist." : str]
   end)
  ++
  (match uncoveredFiles r with
   | [] => []
   | _ :: _ =>
       ["The following files do not have owners:" : str]
         ++ map bullet (uncoveredFiles r)
         ++ ["" : str;
             "Please add rules to CODEOWNERS to cover these files." : str]
   end).

Definition conclude (r : Report) : outcome :=
  match errorMessages r with
  | [] => Resolved
  | messages =>
      Thrown (ValidationError (JS.LF :: JS.join [JS.LF] messages))
  end.

(** [validateCodeOwners]: [manifest] is [None] when the CODEOWNERS file
    cannot be read, else its lines. *)
Definition validateCodeOwners (manifest : option (list str))
           (fs : FileSystem) (foldersToValidate : list str) : outcome :=
  match manifest, scanAllFiles fs foldersToValidate with
  | Some lines, Some allFilePaths =>
      conclude (computeReport (parseCodeOwnersFile lines)
                              foldersToValidate allFilePaths)
  | _, _ => Thrown IOError
  end.

End Validator.

(** ** The specification's wording, as definitions *)

(** [a] equals [b], or is a path-segment prefix of it. *)
Definition atOrAbove (a b : str) : Prop :=
  b = a \/ exists rest, b = a ++ "/" ++ rest.

(** The text before the first occurrence of [c]. *)
Fixpoint before (c : ascii) (s : str) : str :=
  match s with
  | [] => []
  | x :: t => if Ascii.eqb x c then [] else x :: before c t
  end.

(** The literal portion of a pattern before its first wildcard character,
    without its trailing separator. *)
Definition literalBase (pattern : str) : str :=
  JS.dropLastSlash (before "*"%char pattern).

Module Spec.




Section Relevance.

Context `{GlobMatcher}.

(** The four per-folder conditions of the relevance test, on the
    normalized rule [r] and the normalized folder [d]. *)
Definition ruleAtOrAboveFolder (r d : str) : Prop := atOrAbove r d.
Definition folderAtOrAboveRule (r d : str) : Prop := atOrAbove d r.
Definition globMatchesFolder (r d : str) : Prop :=
  JS.includes r "*"%char = true
  /\ minimatch d r {| matchBase := true |} = true.
Definition literalBaseReachesFolder (r d : str) : Prop :=
  JS.includes r "*"%char = true /\ atOrAbove (literalBase r) d.

(** Relevance as the specification words it. *)
Definition relevant (rule : str) (folders : list str) : Prop :=
  exists folder, In folder folders /\
    let r := normalizePath rule in
    let d := normalizePath folder in
    ruleAtOrAboveFolder r d \/ folderAtOrAboveRule r d
    \/ globMatchesFolder r d \/ literalBaseReachesFolder r d.

(** The same with the guard of the source on the fourth condition: the
    literal portion must be non-empty. *)
Definition relevantGuarded (rule : str) (folders : list str) : Prop :=
  exists folder, In folder folders /\
    let r := normalizePath rule in
    let d := normalizePath folder in
    ruleAtOrAboveFolder r d \/ folderAtOrAboveRule r d
    \/ globMatchesFolder r d
    \/ (literalBase r <> [] /\ literalBaseReachesFolder r d).

End Relevance.

End Spec.

(** ** Shell-glob matching, as the specification words it *)

Module Glob.

(** Matching inside one segment: [*] stands for any run of characters,
    [?] for one character, neither crosses a [/]; any other character
    stands for itself. *)
Inductive wildcard : str -> str -> Prop :=
| w_end : wildcard [] []
| w_star_none g f : wildcard g f -> wildcard ("*"%char :: g) f
| w_star_more g c f :
    c <> "/"%char -> wildcard ("*"%char :: g) f ->
    wildcard ("*"%char :: g) (c :: f)
| w_any g c f :
    c <> "/"%char -> wildcard g f -> wildcard ("?"%char :: g) (c :: f)
| w_char c g f :
    c <> "*"%char -> c <> "?"%char -> wildcard g f ->
    wildcard (c :: g) (c :: f).

(** Standard matching over segments: [**] stands for zero or more full
    segments. *)
Inductive segments : list str -> list str -> Prop :=
| s_end : segments [] []
| s_segment (p : str) ps f fs :
    p <> "**" -> wildcard p f -> segments ps fs ->
    segments (p :: ps) (f :: fs)
| s_globstar_none ps fs :
    segments ps fs -> segments (("**" : str) :: ps) fs
| s_globstar_more ps f fs :
    segments (("**" : str) :: ps) fs -> segments (("**" : str) :: ps) (f :: fs).

(** The last segment of a path. *)
Definition basename (file : str) : str := last (JS.split "/"%char file) [].

(** What a pattern is matched against: the whole path, or its basename
    when the pattern holds no [/]. *)
Definition subject (pattern file : str) : list str :=
  if JS.includes pattern "/"%char then JS.split "/"%char file
  else [basename file].

(** Standard shell-glob matching of a path. *)
Definition standard (pattern file : str) : Prop :=
  segments (JS.split "/"%char pattern) (subject pattern file).






End Glob.

(** ** The rules and paths the matching theorems speak of *)

(** No empty segment between two slashes. *)
Fixpoint noDoubleSlash (s : str) : bool :=
  match s with
  | c :: t =>
      match t with
      | d :: _ => negb (Ascii.eqb c JS.slash && Ascii.eqb d JS.slash)
      | [] => true
      end && noDoubleSlash t
  | [] => true
  end.

Fixpoint endsWithSlash (s : str) : bool :=
  match s with
  | [] => false
  | c :: t =>
      match t with
      | [] => Ascii.eqb c JS.slash
      | _ :: _ => endsWithSlash t
      end
  end.

(** No [..] portion, and no [**] portion right after another one:
    [levelOneOptimize] leaves such portions as they are. *)
Fixpoint settled (afterGlobstar : bool) (parts : list str) : bool :=
  match parts with
  | [] => true
  | p :: ps =>
      negb (JS.eqb p "..") && negb (afterGlobstar && JS.eqb p "**")
      && settled (JS.eqb p "**") ps
  end.

(** A normalized rule made of literal segments: no [*] or [?], no brace,
    bracket or parenthesis, no leading [!] or [#], no empty segment between
    slashes, no trailing slash, no [..] segment. *)
Definition literalRule (cleanRule : str) : bool :=
  forallb (fun c => negb (Minimatch.isMagic c)) cleanRule
  && Minimatch.supported cleanRule
  && negb (JS.startsWith cleanRule "!")
  && negb (JS.startsWith cleanRule "#")
  && noDoubleSlash cleanRule
  && negb (endsWithSlash cleanRule)
  && forallb (fun p => negb (JS.eqb p "..")) (JS.split "/"%char cleanRule).




(** One portion of the pattern against one portion of the path. *)
Definition hit (p : Minimatch.part) (f : str) : bool :=
  match p with
  | Minimatch.GLOBSTAR => false
  | Minimatch.Literal s => JS.eqb f s
  | Minimatch.Pattern glob => Minimatch.test glob f
  end.

(** The literal rule of the specification: the normalized file equals the
    normalized rule or begins with it followed by [/]. *)
Definition underRule (rule filePath : str) : Prop :=
  let r := normalizePath rule in
  let f := normalizePath filePath in
  f = r \/ JS.startsWith f (r ++ "/") = true.

(** ** Notions used to state the properties of a run *)


Section RunNotions.

Context `{GlobMatcher}.

(** What one [checkOwnership] call does to one entry. *)
Definition credit (filePath : str) (entry : str * nat) : str * nat :=
  let (rule, count) := entry in
  (rule, if ruleMatchesPath rule filePath then count + 1 else count).

(** Some rule among [rules] matches the file. *)
Definition covered (rules : list str) (filePath : str) : bool :=
  existsb (fun rule => ruleMatchesPath rule filePath) rules.

(** The number of file paths a rule matches. *)
Definition matchCount (rule : str) (allFilePaths : list str) : nat :=
  List.length (filter (ruleMatchesPath rule) allFilePaths).

(** The map after the files were checked in turn. *)
Definition creditAll (allFilePaths : list str) (rules : RuleMap) : RuleMap :=
  fold_left (fun m filePath => map (credit filePath) m) allFilePaths rules.

End RunNotions.

(** A small tree: [pkg/lib/index.ts] and [pkg/unowned/file.ts]. *)
Definition sampleTree : FileSystem :=
  fun root =>
    if JS.eqb root "pkg"
    then Listing
           [("lib" : str, Directory (Listing [("index.ts" : str, RegularFile)]));
            ("unowned" : str,
             Directory (Listing [("file.ts" : str, RegularFile)]))]
    else Unreadable.

(** ** [main.ts] *)

(** [s.replace(/^!\s+/, '!')]: the white space after a leading [!] goes. *)
Definition collapseBang (s : str) : str :=
  match s with
  | c :: t =>
      if Ascii.eqb c "!"%char then
        match t with
        | w :: _ => if JS.isWhiteSpace w then c :: JS.trimStart t else s
        | [] => s
        end
      else s
  | [] => s
  end.

(** [foldersToTrack] of [run], from the value of the [folders] input. *)
Definition foldersToTrack (input : str) : list str :=
  filter (fun x => negb (JS.eqb x ""))
         (map (fun s => JS.trim (collapseBang s)) (JS.split JS.LF input)).

(** [run]: the error handed to [core.setFailed], if any.  [manifest] is what
    the file named by the [path] input holds. *)
Definition run `{GlobMatcher} (manifest : option (list str)) (fs : FileSystem)
           (foldersInput : str) : option error :=
  match validateCodeOwners manifest fs (foldersToTrack foldersInput) with
  | Resolved => None
  | Thrown e => Some e
  end.

(** ** Notions used to state the properties of the enumeration *)

(** The two loops of [getAllFiles] over the items of one directory. *)
Definition filesOf (directoryPath : str) : list (str * node) -> list str :=
  fix files (items : list (str * node)) : list str :=
    match items with
    | [] => []
    | (name, RegularFile) :: rest =>
        (directoryPath ++ "/" ++ name) :: files rest
    | _ :: rest => files rest
    end.

Definition nestedOf (directoryPath : str)
  : list (str * node) -> list (option (list str)) :=
  fix nested (items : list (str * node)) : list (option (list str)) :=
    match items with
    | [] => []
    | (name, Directory d') :: rest =>
        getAllFiles (directoryPath ++ "/" ++ name) d' :: nested rest
    | _ :: rest => nested rest
    end.

(** Every directory of the tree can be listed. *)
Fixpoint readable (d : dir) : bool :=
  match d with
  | Unreadable => false
  | Listing items =>
      (fix all (items : list (str * node)) : bool :=
         match items with
         | [] => true
         | (_, Directory d') :: rest => readable d' && all rest
         | _ :: rest => all rest
         end) items
  end.

(** [rel] names a regular file of the tree, relative to its root. *)
Inductive fileAt : dir -> str -> Prop :=
| file_here items name :
    In (name, RegularFile) items -> fileAt (Listing items) name
| file_below items name d rel :
    In (name, Directory d) items -> fileAt d rel ->
    fileAt (Listing items) (name ++ "/" ++ rel).

(** The strings of [ks] that are not in [seen], each at its first
    occurrence. *)
Fixpoint firstOccurrences (seen ks : list str) : list str :=
  match ks with
  | [] => []
  | k :: rest =>
      if existsb (JS.eqb k) seen then firstOccurrences seen rest
      else k :: firstOccurrences (seen ++ [k]) rest
  end.

(** The patterns of the accepted lines of a manifest, in order. *)
Definition patternsOf (lines : list str) : list str :=
  map pathPattern (filter isValidCodeOwnersLine lines).

(** * Properties *)

#[local] Arguments Ascii.eqb : simpl never.

(** ** Strings *)

Lemma eqb_eq (a b : str) : JS.eqb a b = true <-> a = b.
Proof.
  revert b; induction a as [|x a IH]; intros [|y b]; simpl;
    try (split; [discriminate | congruence]); try tauto.
  rewrite andb_true_iff, Ascii.eqb_eq, IH.
  split; [intros [-> ->]; reflexivity | intros E; inversion E; auto].
Qed.

Lemma eqb_refl (a : str) : JS.eqb a a = true.
Proof. apply eqb_eq; reflexivity. Qed.

Lemma eqb_neq (a b : str) : JS.eqb a b = false <-> a <> b.
Proof.
  rewrite <- eqb_eq. destruct (JS.eqb a b); split; congruence.
Qed.

Lemma eqb_sym (a b : str) : JS.eqb a b = JS.eqb b a.
Proof.
  destruct (JS.eqb a b) eqn:E.
  - apply eqb_eq in E; subst; symmetry; apply eqb_refl.
  - destruct (JS.eqb b a) eqn:E'; auto.
    apply eqb_eq in E'; subst. rewrite eqb_refl in E; discriminate.
Qed.

Lemma startsWith_iff (s pre : str) :
  JS.startsWith s pre = true <-> exists rest, s = pre ++ rest.
Proof.
  revert s; induction pre as [|p pre IH]; intros [|c s]; simpl.
  - split; eauto.
  - split; eauto.
  - split; [discriminate | intros [r E]; discriminate].
  - rewrite andb_true_iff, Ascii.eqb_eq, IH. split.
    + intros [-> [r ->]]; eauto.
    + intros [r E]; inversion E; eauto.
Qed.

Lemma startsWith_app (pre rest : str) : JS.startsWith (pre ++ rest) pre = true.
Proof. apply startsWith_iff; eauto. Qed.

Lemma atOrAbove_iff (a b : str) :
  atOrAbove a b <-> JS.startsWith b (a ++ "/") = true \/ JS.eqb b a = true.
Proof.
  unfold atOrAbove. rewrite startsWith_iff, eqb_eq. split.
  - intros [E | [r E]]; [right; auto | left; exists r].
    rewrite E, <- app_assoc; reflexivity.
  - intros [[r E] | E]; [right; exists r | left; auto].
    rewrite E, <- app_assoc; reflexivity.
Qed.

Lemma split_hd (sep : ascii) (s : str) :
  hd [] (JS.split sep s) = before sep s.
Proof.
  induction s as [|c s IH]; simpl; auto.
  destruct (Ascii.eqb c sep); simpl; auto.
  destruct (JS.split sep s); simpl in *; congruence.
Qed.

(** ** normalizePath *)

Lemma dropTrailingSlashes_prefix (s : str) :
  exists k, s = JS.dropTrailingSlashes s ++ repeat JS.slash k.
Proof.
  induction s as [|c s [k IH]]; simpl.
  - exists 0; reflexivity.
  - destruct (JS.dropTrailingSlashes s) as [|d t] eqn:E.
    + destruct (Ascii.eqb c JS.slash) eqn:C.
      * apply Ascii.eqb_eq in C; subst c. exists (S k).
        simpl in *; congruence.
      * exists k. simpl in *; congruence.
    + exists k. rewrite IH at 1. reflexivity.
Qed.

Lemma dropTrailingSlashes_idem (s : str) :
  JS.dropTrailingSlashes (JS.dropTrailingSlashes s) = JS.dropTrailingSlashes s.
Proof.
  induction s as [|c s IH]; simpl; auto.
  destruct (JS.dropTrailingSlashes s) as [|d t] eqn:E.
  - destruct (Ascii.eqb c JS.slash) eqn:C; simpl; auto. rewrite C; auto.
  - change (JS.dropTrailingSlashes (c :: d :: t))
      with (match JS.dropTrailingSlashes (d :: t) with
            | [] => if Ascii.eqb c JS.slash then [] else [c]
            | t' => c :: t'
            end).
    rewrite IH. reflexivity.
Qed.

Lemma startsWith_dropTrailingSlashes (s pre : str) :
  JS.startsWith (JS.dropTrailingSlashes s) pre = true ->
  JS.startsWith s pre = true.
Proof.
  rewrite !startsWith_iff. intros [r E].
  destruct (dropTrailingSlashes_prefix s) as [k P].
  exists (r ++ repeat JS.slash k). rewrite P at 1. rewrite E.
  apply eq_sym, app_assoc.
Qed.

Lemma dropPrefix_absent (pre s : str) :
  JS.startsWith s pre = false -> JS.dropPrefix pre s = s.
Proof. unfold JS.dropPrefix; intros ->; reflexivity. Qed.

Lemma includes_skipn (c : ascii) (n : nat) (s : str) :
  JS.includes s c = false -> JS.includes (skipn n s) c = false.
Proof.
  unfold JS.includes. revert s; induction n as [|n IH]; intros [|x s]; simpl; auto.
  rewrite orb_false_iff. intros [_ E]; auto.
Qed.

Lemma includes_dropPrefix (c : ascii) (pre s : str) :
  JS.includes s c = false -> JS.includes (JS.dropPrefix pre s) c = false.
Proof.
  unfold JS.dropPrefix. destruct (JS.startsWith s pre); auto.
  apply includes_skipn.
Qed.

Lemma includes_app (c : ascii) (a b : str) :
  JS.includes (a ++ b) c = JS.includes a c || JS.includes b c.
Proof. unfold JS.includes; apply existsb_app. Qed.

Lemma includes_dropTrailingSlashes (c : ascii) (s : str) :
  JS.includes s c = false -> JS.includes (JS.dropTrailingSlashes s) c = false.
Proof.
  destruct (dropTrailingSlashes_prefix s) as [k P]. intros E.
  rewrite P, includes_app in E. apply orb_false_iff in E; tauto.
Qed.

Lemma backslashesToSlashes_absent (s : str) :
  JS.includes s JS.backslash = false -> JS.backslashesToSlashes s = s.
Proof.
  unfold JS.includes, JS.backslashesToSlashes.
  induction s as [|c s IH]; cbn [existsb map]; auto.
  rewrite orb_false_iff, Ascii.eqb_sym. intros [-> E]. rewrite IH; auto.
Qed.

(** C6, as amended: normalizing twice equals normalizing once for every path
    that holds no backslash and whose remainder, once one leading [./] and
    then one leading [/] are removed, begins with neither [/] nor [./]. *)
Theorem normalizePath_idempotent_on_single_prefix (p : str) :
  JS.includes p JS.backslash = false ->
  JS.startsWith (JS.dropPrefix "/" (JS.dropPrefix "./" p)) "/" = false ->
  JS.startsWith (JS.dropPrefix "/" (JS.dropPrefix "./" p)) "./" = false ->
  normalizePath (normalizePath p) = normalizePath p.
Proof.
  intros B S1 S2. unfold normalizePath at 2 3.
  set (q := JS.dropPrefix "/" (JS.dropPrefix "./" p)) in *.
  assert (Bq : JS.includes q JS.backslash = false)
    by (unfold q; auto using includes_dropPrefix).
  rewrite (backslashesToSlashes_absent (JS.dropTrailingSlashes q))
    by auto using includes_dropTrailingSlashes.
  unfold normalizePath.
  assert (N2 : JS.startsWith (JS.dropTrailingSlashes q) "./" = false).
  { destruct (JS.startsWith (JS.dropTrailingSlashes q) "./") eqn:E; auto.
    apply startsWith_dropTrailingSlashes in E. congruence. }
  assert (N1 : JS.startsWith (JS.dropTrailingSlashes q) "/" = false).
  { destruct (JS.startsWith (JS.dropTrailingSlashes q) "/") eqn:E; auto.
    apply startsWith_dropTrailingSlashes in E. congruence. }
  rewrite (dropPrefix_absent "./") by exact N2.
  rewrite (dropPrefix_absent "/") by exact N1.
  rewrite dropTrailingSlashes_idem.
  apply backslashesToSlashes_absent, includes_dropTrailingSlashes, Bq.
Qed.

Lemma normalizePath_idempotent_witness :
  normalizePath (normalizePath "./src/lib/") = normalizePath "./src/lib/".
Proof.
  apply (normalizePath_idempotent_on_single_prefix "./src/lib/"); reflexivity.
Defined.

(** C6 as stated fails: only one leading [/] is removed per call. *)
Lemma normalizePath_not_idempotent :
  normalizePath (normalizePath "//a") <> normalizePath "//a".
Proof. vm_compute. discriminate. Qed.

(** A trailing backslash becomes a trailing slash, after the trailing slashes
    were removed. *)
Lemma normalizePath_trailing_backslash :
  normalizePath "a\" = "a/" /\ normalizePath "a/" = "a".
Proof. split; reflexivity. Qed.

(** ** Manifest lines *)




Lemma keys_map_set (k : str) (v : nat) (m : RuleMap) (k' : str) :
  In k' (keys (map_set k v m)) <-> k' = k \/ In k' (keys m).
Proof.
  induction m as [|[k0 v0] m IH]; simpl.
  - intuition congruence.
  - destruct (JS.eqb k k0) eqn:E; simpl.
    + apply eqb_eq in E; subst k0. intuition congruence.
    + rewrite IH. intuition congruence.
Qed.

Lemma parse_keys_from (lines : list str) (acc : RuleMap) (k : str) :
  In k (keys (fold_left
                (fun rules line =>
                   if isValidCodeOwnersLine line
                   then map_set (pathPattern line) 0 rules else rules)
                lines acc)) <->
  In k (keys acc) \/
  exists line, In line lines /\ isValidCodeOwnersLine line = true
               /\ k = pathPattern line.
Proof.
  revert acc; induction lines as [|l lines IH]; intros acc; simpl.
  - split; [auto | intros [?|[? [[] _]]]; auto].
  - rewrite IH. destruct (isValidCodeOwnersLine l) eqn:V.
    + rewrite keys_map_set. split.
      * intros [[->|A]|[x [I [Vx E]]]]; eauto 6.
      * intros [A|[x [[->|I] [Vx E]]]]; eauto 6.
    + split.
      * intros [A|[x [I [Vx E]]]]; eauto 6.
      * intros [A|[x [[->|I] [Vx E]]]]; eauto 6. congruence.
Qed.








(** ** Relevance of a rule to the tracked folders *)

Section RelevanceFacts.

Context `{GlobMatcher}.

Lemma relevantLoop_iff (cleanRule : str) (folders : list str) :
  relevantLoop cleanRule folders = true <->
  exists folder, In folder folders /\ relevantToFolder cleanRule folder = true.
Proof.
  induction folders as [|d folders IH]; simpl.
  - split; [discriminate | intros [? [[] _]]].
  - destruct (relevantToFolder cleanRule d) eqn:E.
    + split; eauto.
    + rewrite IH. split.
      * intros [x [I R]]; eauto.
      * intros [x [[->|I] R]]; [congruence | eauto].
Qed.

Lemma relevantToFolder_iff (r folder : str) :
  relevantToFolder r folder = true <->
  let d := normalizePath folder in
  Spec.ruleAtOrAboveFolder r d \/ Spec.folderAtOrAboveRule r d
  \/ Spec.globMatchesFolder r d
  \/ (literalBase r <> [] /\ Spec.literalBaseReachesFolder r d).
Proof.
  unfold relevantToFolder, Spec.ruleAtOrAboveFolder, Spec.folderAtOrAboveRule,
    Spec.globMatchesFolder, Spec.literalBaseReachesFolder, literalBase.
  cbv zeta. set (d := normalizePath folder).
  rewrite !atOrAbove_iff, split_hd, <- !orb_true_iff.
  change (list_ascii_of_string "") with (@nil ascii).
  destruct (JS.startsWith r (d ++ "/") || JS.eqb r d); [split; auto|].
  destruct (JS.startsWith d (r ++ "/") || JS.eqb d r); [split; auto|].
  destruct (JS.includes r "*"%char).
  - destruct (minimatch d r {| matchBase := true |}); [split; auto|].
    rewrite andb_true_iff, negb_true_iff, eqb_neq.
    intuition congruence.
  - intuition congruence.
Qed.

Lemma isRuleRelevantToFolders_iff (rule : str) (folders : list str) :
  isRuleRelevantToFolders rule folders = true <->
  Spec.relevantGuarded rule folders.
Proof.
  unfold isRuleRelevantToFolders, Spec.relevantGuarded.
  rewrite relevantLoop_iff.
  split; intros [d [I R]]; exists d; (split; [exact I|]);
    apply relevantToFolder_iff in R; exact R.
Qed.

(** C3, as amended: a rule is relevant exactly when some folder satisfies
    one of the four conditions, the fourth one only with a non-empty
    literal portion before the first wildcard. *)
Theorem relevant_iff_some_folder_condition (rule : str) (folders : list str) :
  isRuleRelevantToFolders rule folders = true <->
  exists folder, In folder folders /\
    let r := normalizePath rule in
    let d := normalizePath folder in
    atOrAbove r d
    \/ atOrAbove d r
    \/ (JS.includes r "*"%char = true
        /\ minimatch d r {| matchBase := true |} = true)
    \/ (JS.includes r "*"%char = true
        /\ literalBase r <> []
        /\ atOrAbove (literalBase r) d).
Proof.
  rewrite isRuleRelevantToFolders_iff.
  unfold Spec.relevantGuarded, Spec.ruleAtOrAboveFolder,
    Spec.folderAtOrAboveRule, Spec.globMatchesFolder,
    Spec.literalBaseReachesFolder.
  split; intros [d [I R]]; exists d; (split; [exact I|]); cbv zeta in *;
    tauto.
Qed.

(** C8: a rule relevant to a list of folders is relevant to every list that
    holds all of them. *)
Theorem relevance_monotone
        (rule : str) (folders folders' : list str) :
  incl folders folders' ->
  isRuleRelevantToFolders rule folders = true ->
  isRuleRelevantToFolders rule folders' = true.
Proof.
  unfold isRuleRelevantToFolders. rewrite !relevantLoop_iff.
  intros Sub [d [I R]]. exists d. split; [apply Sub, I | exact R].
Qed.

Lemma relevant_to_no_folder (rule : str) :
  isRuleRelevantToFolders rule [] = false.
Proof. reflexivity. Qed.

End RelevanceFacts.

Lemma relevance_monotone_witness :
  isRuleRelevantToFolders "/src/*.ts" ["docs" : str; "src" : str] = true.
Proof.
  apply (relevance_monotone "/src/*.ts" ["src" : str]).
  - intros d [<-|[]]. right; left; reflexivity.
  - reflexivity.
Defined.

(** C3 as stated fails: with an empty literal portion the fourth condition
    would hold for a folder whose normal form begins with [/], and the
    source skips it. *)
Lemma empty_literal_base_not_relevant :
  ~ (isRuleRelevantToFolders "*.ts" ["//x" : str] = true <->
     Spec.relevant "*.ts" ["//x" : str]).
Proof.
  intros [_ B]. assert (F : isRuleRelevantToFolders "*.ts" ["//x" : str] = false)
    by reflexivity.
  rewrite B in F; [discriminate|].
  exists ("//x" : str). split; [left; reflexivity|].
  right; right; right. split; [reflexivity|].
  right. exists ("x" : str). reflexivity.
Qed.

(** ** The rule map *)

Lemma keys_app (a b : RuleMap) : keys (a ++ b) = keys a ++ keys b.
Proof. apply map_app. Qed.

Lemma map_get_skip (k : str) (a b : RuleMap) :
  ~ In k (keys a) -> map_get k (a ++ b) = map_get k b.
Proof.
  induction a as [|[k0 v0] a IH]; simpl; auto.
  intros N. destruct (JS.eqb k k0) eqn:E.
  - apply eqb_eq in E. subst. tauto.
  - apply IH. tauto.
Qed.

Lemma map_set_skip (k : str) (v : nat) (a b : RuleMap) :
  ~ In k (keys a) -> map_set k v (a ++ b) = a ++ map_set k v b.
Proof.
  induction a as [|[k0 v0] a IH]; simpl; auto.
  intros N. destruct (JS.eqb k k0) eqn:E.
  - apply eqb_eq in E. subst. tauto.
  - rewrite IH; tauto.
Qed.

Lemma map_set_NoDup (k : str) (v : nat) (m : RuleMap) :
  NoDup (keys m) -> NoDup (keys (map_set k v m)).
Proof.
  induction m as [|[k0 v0] m IH]; simpl; intros N.
  - constructor; [intros []|constructor].
  - destruct (JS.eqb k k0) eqn:E; simpl; [exact N|].
    inversion N as [|? ? N1 N2]; subst. constructor; auto.
    rewrite keys_map_set. intros [->|I]; [|tauto].
    rewrite eqb_refl in E; discriminate.
Qed.

Lemma parseCodeOwnersFile_NoDup (lines : list str) :
  NoDup (keys (parseCodeOwnersFile lines)).
Proof.
  unfold parseCodeOwnersFile.
  assert (G : forall acc : RuleMap, NoDup (keys acc) ->
            NoDup (keys (fold_left
              (fun rules line =>
                 if isValidCodeOwnersLine line
                 then map_set (pathPattern line) 0 rules else rules)
              lines acc))).
  { induction lines as [|l lines IH]; simpl; intros acc N; auto.
    apply IH. destruct (isValidCodeOwnersLine l); auto using map_set_NoDup. }
  apply G. constructor.
Qed.

Lemma map_set_zero (k : str) (m : RuleMap) :
  Forall (fun e => snd e = 0) m -> Forall (fun e => snd e = 0) (map_set k 0 m).
Proof.
  induction m as [|[k0 v0] m IH]; simpl; intros F.
  - repeat constructor.
  - inversion F; subst. destruct (JS.eqb k k0); constructor; auto.
Qed.

Lemma parseCodeOwnersFile_zero (lines : list str) :
  Forall (fun e => snd e = 0) (parseCodeOwnersFile lines).
Proof.
  unfold parseCodeOwnersFile.
  assert (G : forall acc : RuleMap, Forall (fun e => snd e = 0) acc ->
            Forall (fun e => snd e = 0) (fold_left
              (fun rules line =>
                 if isValidCodeOwnersLine line
                 then map_set (pathPattern line) 0 rules else rules)
              lines acc)).
  { induction lines as [|l lines IH]; simpl; intros acc N; auto.
    apply IH. destruct (isValidCodeOwnersLine l); auto using map_set_zero. }
  apply G. constructor.
Qed.

(** ** One validation run *)

Section RunFacts.

Context `{GlobMatcher}.

Lemma keys_credit (filePath : str) (rules : RuleMap) :
  keys (map (credit filePath) rules) = keys rules.
Proof.
  unfold keys. rewrite map_map. apply map_ext. intros [r c]; reflexivity.
Qed.

Lemma map_get_credit (filePath rule : str) (rules : RuleMap) :
  map_get rule (map (credit filePath) rules) =
  option_map
    (fun count => if ruleMatchesPath rule filePath then count + 1 else count)
    (map_get rule rules).
Proof.
  induction rules as [|[r c] rules IH]; simpl; auto.
  destruct (JS.eqb rule r) eqn:E; auto.
  apply eqb_eq in E; subst r. reflexivity.
Qed.

(** The loop of [checkOwnership] after the entries [done], with [todo]
    still to visit. *)
Lemma checkOwnership_loop (filePath : str) (todo done : RuleMap) (owned : bool) :
  NoDup (keys (done ++ todo)) ->
  fold_left
    (fun (st : bool * RuleMap) rule =>
       let (owned, rules) := st in
       match map_get rule rules with
       | Some count =>
           if ruleMatchesPath rule filePath
           then (true, map_set rule (count + 1) rules)
           else st
       | None => st
       end)
    (keys todo) (owned, map (credit filePath) done ++ todo)
  = (owned || covered (keys todo) filePath,
     map (credit filePath) (done ++ todo)).
Proof.
  revert done owned. induction todo as [|[k c] todo IH]; intros done owned N.
  - simpl. rewrite orb_false_r, !app_nil_r. reflexivity.
  - assert (Fresh : ~ In k (keys (map (credit filePath) done))).
    { rewrite keys_credit. rewrite keys_app in N.
      apply NoDup_remove_2 in N. intros I. apply N, in_or_app. auto. }
    cbn [keys map fst fold_left].
    rewrite (map_get_skip _ _ _ Fresh). cbn [map_get]. rewrite eqb_refl.
    assert (N' : NoDup (keys ((done ++ [(k, c)]) ++ todo)))
      by (rewrite <- app_assoc; exact N).
    specialize (IH (done ++ [(k, c)])).
    replace (done ++ (k, c) :: todo) with ((done ++ [(k, c)]) ++ todo)
      by (rewrite <- app_assoc; reflexivity).
    destruct (ruleMatchesPath k filePath) eqn:M.
    + rewrite (map_set_skip _ _ _ _ Fresh). cbn [map_set]. rewrite eqb_refl.
      specialize (IH true N').
      rewrite map_app in IH. cbn [map credit] in IH. rewrite M in IH.
      rewrite <- app_assoc in IH. cbn [app] in IH.
      etransitivity; [exact IH|]. unfold covered. cbn [existsb]. rewrite M.
      rewrite orb_true_r. reflexivity.
    + specialize (IH owned N').
      rewrite map_app in IH. cbn [map credit] in IH. rewrite M in IH.
      rewrite <- app_assoc in IH. cbn [app] in IH.
      etransitivity; [exact IH|]. unfold covered. cbn [existsb]. rewrite M.
      reflexivity.
Qed.

Lemma checkOwnership_spec (filePath : str) (rules : RuleMap) :
  NoDup (keys rules) ->
  checkOwnership filePath rules
  = (covered (keys rules) filePath, map (credit filePath) rules).
Proof.
  intros N. unfold checkOwnership.
  apply (checkOwnership_loop filePath rules [] false N).
Qed.

Lemma keys_creditAll (allFilePaths : list str) (rules : RuleMap) :
  keys (creditAll allFilePaths rules) = keys rules.
Proof.
  revert rules; induction allFilePaths as [|f fs IH]; intros rules; simpl; auto.
  unfold creditAll in *. simpl. rewrite IH. apply keys_credit.
Qed.

Lemma filterUncovered_spec (allFilePaths : list str) (rules : RuleMap) :
  NoDup (keys rules) ->
  filterUncovered allFilePaths rules
  = (filter (fun f => negb (covered (keys rules) f)) allFilePaths,
     creditAll allFilePaths rules).
Proof.
  revert rules; induction allFilePaths as [|f fs IH]; intros rules N.
  - reflexivity.
  - cbn [filterUncovered]. rewrite (checkOwnership_spec _ _ N).
    rewrite IH by (rewrite keys_credit; exact N).
    rewrite keys_credit. cbn [filter].
    destruct (covered (keys rules) f); reflexivity.
Qed.

Lemma creditAll_counts (allFilePaths : list str) (rules : RuleMap) :
  creditAll allFilePaths rules
  = map (fun entry : str * nat =>
           let (rule, count) := entry in
           (rule, count + matchCount rule allFilePaths))
        rules.
Proof.
  revert rules; induction allFilePaths as [|f fs IH]; intros rules.
  - unfold creditAll, matchCount. simpl. symmetry.
    rewrite <- (map_id rules) at 2. apply map_ext.
    intros [r c]. f_equal. lia.
  - unfold creditAll in *. cbn [fold_left]. rewrite IH, map_map.
    apply map_ext. intros [r c]. unfold credit, matchCount. cbn [filter].
    destruct (ruleMatchesPath r f); cbn [List.length]; f_equal; lia.
Qed.

Lemma matchCount_zero (rule : str) (allFilePaths : list str) :
  matchCount rule allFilePaths = 0 <->
  forall f, In f allFilePaths -> ruleMatchesPath rule f = false.
Proof.
  unfold matchCount. induction allFilePaths as [|f fs IH]; simpl.
  - split; [intros _ ? [] | reflexivity].
  - destruct (ruleMatchesPath rule f) eqn:M; simpl.
    + split; [discriminate | intros A]. specialize (A f (or_introl eq_refl)).
      congruence.
    + rewrite IH. split.
      * intros A x [<-|I]; auto.
      * intros A x I. apply A; auto.
Qed.

Lemma matchCount_perm (rule : str) (files files' : list str) :
  Permutation files files' -> matchCount rule files = matchCount rule files'.
Proof.
  intros P. unfold matchCount. apply Permutation_length.
  induction P; simpl.
  - constructor.
  - destruct (ruleMatchesPath rule x); auto.
  - destruct (ruleMatchesPath rule x), (ruleMatchesPath rule y);
      auto using perm_swap, Permutation_refl.
  - eapply Permutation_trans; eauto.
Qed.

Lemma filter_perm {A : Type} (f : A -> bool) (l l' : list A) :
  Permutation l l' -> Permutation (filter f l) (filter f l').
Proof.
  intros P. induction P; simpl.
  - constructor.
  - destruct (f x); auto.
  - destruct (f x), (f y); auto using perm_swap, Permutation_refl.
  - eapply Permutation_trans; eauto.
Qed.

Lemma computeReport_spec (rules : RuleMap) (folders files : list str) :
  NoDup (keys rules) ->
  computeReport rules folders files
  = {| unusedRules := unusedRulesOf (creditAll files rules) folders;
       uncoveredFiles := filter (fun f => negb (covered (keys rules) f)) files |}.
Proof.
  intros N. unfold computeReport. rewrite (filterUncovered_spec _ _ N).
  reflexivity.
Qed.

End RunFacts.





Section ValidationFacts.

Context `{GlobMatcher}.

Lemma errorMessages_nil (r : Report) :
  errorMessages r = [] <-> unusedRules r = [] /\ uncoveredFiles r = [].
Proof.
  unfold errorMessages.
  destruct (unusedRules r), (uncoveredFiles r); simpl;
    intuition discriminate.
Qed.

Lemma conclude_resolved (r : Report) :
  conclude r = Resolved <-> unusedRules r = [] /\ uncoveredFiles r = [].
Proof.
  rewrite <- errorMessages_nil. unfold conclude.
  destruct (errorMessages r); split; congruence.
Qed.





Lemma unusedRulesOf_no_folders (rules : RuleMap) :
  unusedRulesOf rules [] = [].
Proof.
  unfold unusedRulesOf. induction rules as [|[r c] rules IH]; simpl; auto.
  rewrite relevant_to_no_folder, andb_false_r. exact IH.
Qed.

(** C10: with no tracked folder no file is enumerated, no rule is relevant,
    and the run succeeds whatever the manifest holds. *)
Theorem no_folders_always_resolves (lines : list str) (fs : FileSystem) :
  scanAllFiles fs [] = Some []
  /\ uncoveredFiles (computeReport (parseCodeOwnersFile lines) [] []) = []
  /\ (forall rule, isRuleRelevantToFolders rule [] = false)
  /\ unusedRules (computeReport (parseCodeOwnersFile lines) [] []) = []
  /\ validateCodeOwners (Some lines) fs [] = Resolved.
Proof.
  assert (U : unusedRules (computeReport (parseCodeOwnersFile lines) [] [])
              = []) by apply unusedRulesOf_no_folders.
  repeat split; auto.
  unfold validateCodeOwners. cbn [scanAllFiles map allOrNothing List.concat].
  apply conclude_resolved. split; [exact U | reflexivity].
Qed.

End ValidationFacts.


Section CounterFacts.

Context `{GlobMatcher}.

Lemma map_get_zero (rule : str) (rules : RuleMap) (count : nat) :
  Forall (fun e => snd e = 0) rules ->
  map_get rule rules = Some count -> count = 0.
Proof.
  induction rules as [|[r c] rules IH]; simpl; [discriminate|].
  intros F. inversion F as [|? ? Z F']; subst.
  destruct (JS.eqb rule r); [|auto].
  simpl in Z. congruence.
Qed.

Lemma map_get_In (rule : str) (rules : RuleMap) :
  In rule (keys rules) <-> exists count, map_get rule rules = Some count.
Proof.
  induction rules as [|[r c] rules IH]; simpl.
  - split; [intros [] | intros [? E]; discriminate].
  - destruct (JS.eqb rule r) eqn:E.
    + apply eqb_eq in E; subst. split; eauto.
    + apply eqb_neq in E. rewrite IH. split; [intros [A|A]|]; auto.
      congruence.
Qed.

Lemma map_get_counts (rule : str) (rules : RuleMap) (files : list str) :
  Forall (fun e => snd e = 0) rules ->
  map_get rule (creditAll files rules)
  = option_map (fun _ => matchCount rule files) (map_get rule rules).
Proof.
  rewrite creditAll_counts.
  induction rules as [|[r c] rules IH]; simpl; auto.
  intros F. inversion F as [|? ? Z F']; subst. simpl in Z; subst c.
  destruct (JS.eqb rule r) eqn:E; auto.
  apply eqb_eq in E; subst r. reflexivity.
Qed.

Lemma creditAll_app (a b : list str) (rules : RuleMap) :
  creditAll (a ++ b) rules = creditAll b (creditAll a rules).
Proof. apply fold_left_app. Qed.

Lemma unusedRulesOf_In (rule : str) (rules : RuleMap) (folders : list str) :
  In rule (unusedRulesOf rules folders) <->
  In (rule, 0) rules /\ isRuleRelevantToFolders rule folders = true.
Proof.
  unfold unusedRulesOf. rewrite in_map_iff. split.
  - intros [[r c] [E I]]. simpl in E; subst r.
    apply filter_In in I. destruct I as [I C].
    apply andb_true_iff in C. destruct C as [Z R].
    apply Nat.eqb_eq in Z; subst c. auto.
  - intros [I R]. exists (rule, 0). split; [reflexivity|].
    apply filter_In. split; [exact I|]. rewrite R. reflexivity.
Qed.

Lemma unused_after_run (rule : str) (rules : RuleMap) (folders files : list str) :
  Forall (fun e => snd e = 0) rules ->
  In rule (unusedRulesOf (creditAll files rules) folders) <->
  In rule (keys rules) /\ matchCount rule files = 0
  /\ isRuleRelevantToFolders rule folders = true.
Proof.
  intros Z. rewrite unusedRulesOf_In, creditAll_counts, in_map_iff.
  rewrite Forall_forall in Z. split.
  - intros [[[r c] [E I]] R]. inversion E; subst r.
    pose proof (Z _ I) as C. simpl in C; subst c.
    repeat split; auto. apply in_map_iff. exists (rule, 0). auto.
  - intros [I [M R]]. split; [|exact R].
    apply in_map_iff in I. destruct I as [[r c] [E I]]. simpl in E; subst r.
    pose proof (Z _ I) as C. simpl in C; subst c.
    exists (rule, 0). rewrite M. auto.
Qed.

(** C5: in a run, a [checkOwnership] call leaves each counter as it is or
    adds one to it; after the last file a rule's counter is the number of
    enumerated paths the rule matches; and the unused rules are read off
    these final counters: the rules of the manifest that match no file and
    are relevant to the folders. *)
Theorem counters_count_matching_files
        (lines folders done rest : list str) (filePath rule : str) :
  let rules := parseCodeOwnersFile lines in
  let files := done ++ filePath :: rest in
  let before := snd (filterUncovered done rules) in
  let after := snd (checkOwnership filePath before) in
  let final := snd (filterUncovered files rules) in
  map_get rule after
  = option_map
      (fun count => if ruleMatchesPath rule filePath then count + 1 else count)
      (map_get rule before)
  /\ final = snd (filterUncovered rest after)
  /\ map_get rule final
     = option_map (fun _ => matchCount rule files) (map_get rule rules)
  /\ unusedRules (computeReport rules folders files)
     = unusedRulesOf final folders
  /\ (In rule (unusedRules (computeReport rules folders files)) <->
      In rule (keys rules) /\ matchCount rule files = 0
      /\ isRuleRelevantToFolders rule folders = true).
Proof.
  intros rules files before after final.
  pose proof (parseCodeOwnersFile_NoDup lines) as N. fold rules in N.
  pose proof (parseCodeOwnersFile_zero lines) as Z. fold rules in Z.
  assert (B : before = creditAll done rules)
    by (unfold before; rewrite filterUncovered_spec by exact N; reflexivity).
  assert (NB : NoDup (keys before))
    by (rewrite B, keys_creditAll; exact N).
  assert (A : after = map (credit filePath) before)
    by (unfold after; rewrite checkOwnership_spec by exact NB; reflexivity).
  assert (NA : NoDup (keys after))
    by (rewrite A, keys_credit; exact NB).
  assert (F : final = creditAll files rules)
    by (unfold final; rewrite filterUncovered_spec by exact N; reflexivity).
  assert (R : unusedRules (computeReport rules folders files)
              = unusedRulesOf final folders)
    by (rewrite computeReport_spec by exact N; rewrite F; reflexivity).
  split; [rewrite A; apply map_get_credit|].
  split.
  { rewrite filterUncovered_spec by exact NA. cbn [snd].
    rewrite F, A, B. unfold files. rewrite creditAll_app. reflexivity. }
  split; [rewrite F; apply map_get_counts, Z|].
  split; [exact R|].
  rewrite R, F. apply unused_after_run, Z.
Qed.

(** C9: checking the enumerated files in another order gives the same
    uncovered files up to order, the same unused rules and the same
    verdict. *)
Theorem outcome_invariant_under_file_order
        (lines folders files files' : list str) :
  Permutation files files' ->
  let rules := parseCodeOwnersFile lines in
  let report := computeReport rules folders files in
  let report' := computeReport rules folders files' in
  Permutation (uncoveredFiles report) (uncoveredFiles report')
  /\ unusedRules report = unusedRules report'
  /\ (conclude report = Resolved <-> conclude report' = Resolved).
Proof.
  intros P rules report report'.
  pose proof (parseCodeOwnersFile_NoDup lines) as N. fold rules in N.
  unfold report, report'. rewrite !computeReport_spec by exact N.
  cbn [uncoveredFiles unusedRules].
  assert (C : creditAll files rules = creditAll files' rules).
  { rewrite !creditAll_counts. apply map_ext. intros [r c].
    rewrite (matchCount_perm r _ _ P). reflexivity. }
  assert (U : Permutation
                (filter (fun f => negb (covered (keys rules) f)) files)
                (filter (fun f => negb (covered (keys rules) f)) files'))
    by (apply filter_perm, P).
  split; [exact U|]. split; [rewrite C; reflexivity|].
  rewrite !conclude_resolved. cbn [uncoveredFiles unusedRules]. rewrite C.
  split; intros [E V]; (split; [exact E|]).
  - rewrite V in U. apply Permutation_nil in U. exact U.
  - rewrite V in U. apply Permutation_sym, Permutation_nil in U. exact U.
Qed.

End CounterFacts.

Lemma outcome_invariant_under_file_order_witness :
  let rules := parseCodeOwnersFile ["/pkg/lib @owner" : str] in
  let report :=
    computeReport rules ["pkg" : str]
                  ["pkg/lib/a.ts" : str; "pkg/b.ts" : str] in
  let report' :=
    computeReport rules ["pkg" : str]
                  ["pkg/b.ts" : str; "pkg/lib/a.ts" : str] in
  Permutation (uncoveredFiles report) (uncoveredFiles report')
  /\ unusedRules report = unusedRules report'
  /\ (conclude report = Resolved <-> conclude report' = Resolved).
Proof.
  apply (outcome_invariant_under_file_order
           ["/pkg/lib @owner" : str] ["pkg" : str]
           ["pkg/lib/a.ts" : str; "pkg/b.ts" : str]
           ["pkg/b.ts" : str; "pkg/lib/a.ts" : str]).
  apply perm_swap.
Defined.

(** ** Matching inside one segment *)









Lemma no_magic_iff (p : str) :
  existsb Minimatch.isMagic p = false <->
  forallb (fun c => negb (Minimatch.isMagic c)) p = true.
Proof.
  induction p as [|c p IH]; simpl; [tauto|].
  rewrite orb_false_iff, andb_true_iff, negb_true_iff, IH. tauto.
Qed.







(** ** Matching over segments *)

Lemma matchOne_hit (p : Minimatch.part) (rest : list Minimatch.part)
      (file : list str) :
  p <> Minimatch.GLOBSTAR ->
  Minimatch.matchOne file (p :: rest)
  = match file with
    | [] => false
    | f :: fs => hit p f && Minimatch.matchOne fs rest
    end.
Proof. destruct p; [congruence | reflexivity | reflexivity]. Qed.

Lemma matchOne_globstar_last (file : list str) :
  Minimatch.matchOne file [Minimatch.GLOBSTAR]
  = match file with
    | [] => false
    | _ :: _ => forallb (fun f => negb (Minimatch.startsWithDot f)) file
    end.
Proof. destruct file; reflexivity. Qed.







(** ** Splitting a path into segments *)

Lemma split_cons (sep c : ascii) (s : str) :
  JS.split sep (c :: s)
  = if Ascii.eqb c sep then [] :: JS.split sep s
    else (c :: hd [] (JS.split sep s)) :: tl (JS.split sep s).
Proof.
  cbn [JS.split]. destruct (Ascii.eqb c sep); [reflexivity|].
  destruct (JS.split sep s) eqn:E; [|reflexivity].
  destruct s; cbn [JS.split] in E; [discriminate|].
  destruct (Ascii.eqb a sep); [discriminate|].
  destruct (JS.split sep s); discriminate.
Qed.

Lemma split_not_nil (sep : ascii) (s : str) : JS.split sep s <> [].
Proof.
  destruct s as [|c s]; [discriminate|]. rewrite split_cons.
  destruct (Ascii.eqb c sep); discriminate.
Qed.

Lemma split_eta (sep : ascii) (s : str) :
  JS.split sep s = hd [] (JS.split sep s) :: tl (JS.split sep s).
Proof.
  pose proof (split_not_nil sep s). destruct (JS.split sep s); [congruence|].
  reflexivity.
Qed.

Lemma split_app (sep : ascii) (a b : str) :
  JS.split sep (a ++ sep :: b) = JS.split sep a ++ JS.split sep b.
Proof.
  induction a as [|c a IH].
  - cbn [app]. rewrite split_cons, Ascii.eqb_refl. reflexivity.
  - cbn [app]. rewrite !split_cons, IH.
    destruct (Ascii.eqb c sep); [reflexivity|].
    rewrite (split_eta sep a). reflexivity.
Qed.

Lemma join_cons (sep p : str) (q : str) (rest : list str) :
  JS.join sep (p :: q :: rest) = p ++ sep ++ JS.join sep (q :: rest).
Proof. reflexivity. Qed.

Lemma join_split (sep : ascii) (s : str) :
  JS.join [sep] (JS.split sep s) = s.
Proof.
  induction s as [|c s IH]; [reflexivity|].
  rewrite split_cons. destruct (Ascii.eqb c sep) eqn:E.
  - apply Ascii.eqb_eq in E. subst c.
    rewrite (split_eta sep s), join_cons, <- split_eta, IH. reflexivity.
  - rewrite (split_eta sep s) in IH.
    destruct (tl (JS.split sep s)) as [|q rest].
    + cbn [JS.join] in *. congruence.
    + rewrite join_cons in *. rewrite <- IH at 2. reflexivity.
Qed.

Lemma split_segment_chars (sep c : ascii) (s seg : str) :
  In seg (JS.split sep s) -> In c seg -> In c s.
Proof.
  revert seg. induction s as [|d s IH]; intros seg.
  - intros [<-|[]] [].
  - rewrite split_cons. destruct (Ascii.eqb d sep).
    + intros [<-|I] C; [destruct C|]. right. eauto.
    + rewrite (split_eta sep s) in IH. intros [<-|I] C.
      * destruct C as [<-|C]; [left; reflexivity|].
        right. apply (IH _ (or_introl eq_refl) C).
      * right. apply (IH seg); [right; exact I | exact C].
Qed.

Lemma split_segment_no_sep (sep : ascii) (s seg : str) :
  In seg (JS.split sep s) -> ~ In sep seg.
Proof.
  revert seg. induction s as [|d s IH]; intros seg.
  - intros [<-|[]] [].
  - rewrite split_cons. destruct (Ascii.eqb d sep) eqn:E.
    + intros [<-|I]; [intros []|]. auto.
    + rewrite (split_eta sep s) in IH. apply Ascii.eqb_neq in E.
      intros [<-|I].
      * intros [C|C]; [congruence|].
        exact (IH _ (or_introl eq_refl) C).
      * apply IH. right; exact I.
Qed.

Lemma split_without_sep (sep : ascii) (s : str) :
  JS.includes s sep = false -> JS.split sep s = [s].
Proof.
  unfold JS.includes. induction s as [|c s IH]; [reflexivity|].
  cbn [existsb]. rewrite orb_false_iff, Ascii.eqb_sym. intros [E N].
  rewrite split_cons, E, (IH N). reflexivity.
Qed.


Lemma split_join (sep : ascii) (parts : list str) :
  parts <> [] -> (forall seg, In seg parts -> ~ In sep seg) ->
  JS.split sep (JS.join [sep] parts) = parts.
Proof.
  induction parts as [|p parts IH]; [congruence|]. intros _ N.
  assert (Np : JS.includes p sep = false).
  { unfold JS.includes. destruct (existsb (Ascii.eqb sep) p) eqn:E; auto.
    apply existsb_exists in E. destruct E as [c [I E]].
    apply Ascii.eqb_eq in E. subst c.
    exfalso. exact (N p (or_introl eq_refl) I). }
  destruct parts as [|q parts].
  - cbn [JS.join]. apply split_without_sep, Np.
  - rewrite join_cons. cbn [app]. rewrite split_app, IH.
    + rewrite (split_without_sep _ _ Np). reflexivity.
    + discriminate.
    + intros seg I. apply N. right; exact I.
Qed.

Lemma join_app (sep : str) (a b : list str) :
  a <> [] -> b <> [] ->
  JS.join sep (a ++ b) = JS.join sep a ++ sep ++ JS.join sep b.
Proof.
  induction a as [|p a IH]; [congruence|]. intros _ B.
  destruct a as [|q a].
  - destruct b; [congruence|]. reflexivity.
  - cbn [app] in *. rewrite !join_cons, IH by (auto; discriminate).
    rewrite <- !app_assoc. reflexivity.
Qed.

Lemma slashSplit_cons (c : ascii) (t : str) :
  Minimatch.slashSplit (c :: t)
  = if Ascii.eqb c JS.slash then
      match t with
      | c' :: _ => if Ascii.eqb c' JS.slash then Minimatch.slashSplit t
                   else [] :: Minimatch.slashSplit t
      | [] => [] :: Minimatch.slashSplit t
      end
    else match Minimatch.slashSplit t with
         | seg :: rest => (c :: seg) :: rest
         | [] => [[c]]
         end.
Proof. reflexivity. Qed.

Lemma slashSplit_split (s : str) :
  noDoubleSlash s = true -> Minimatch.slashSplit s = JS.split JS.slash s.
Proof.
  induction s as [|c s IH]; [reflexivity|].
  cbn [noDoubleSlash]. rewrite andb_true_iff. intros [D N].
  rewrite slashSplit_cons, split_cons, (IH N).
  destruct (Ascii.eqb c JS.slash); cbn [andb] in D.
  - destruct s as [|d s]; [reflexivity|].
    apply negb_true_iff in D. rewrite D. reflexivity.
  - rewrite (split_eta JS.slash s) at 1. reflexivity.
Qed.

(** ** The preprocessing of a pattern *)

Lemma levelOne_settled (parts acc : list str) :
  settled (match acc with
           | prev :: _ => JS.eqb prev "**"
           | [] => false
           end) parts = true ->
  fold_left Minimatch.levelOneStep parts acc = rev parts ++ acc.
Proof.
  revert acc. induction parts as [|p ps IH]; intros acc S; [reflexivity|].
  cbn [settled] in S. apply andb_true_iff in S. destruct S as [S T].
  apply andb_true_iff in S. destruct S as [D G].
  apply negb_true_iff in D, G.
  cbn [fold_left rev]. rewrite <- app_assoc. cbn [app].
  assert (E : Minimatch.levelOneStep acc p = p :: acc).
  { unfold Minimatch.levelOneStep. destruct acc as [|prev set']; auto.
    rewrite andb_comm, G, D. reflexivity. }
  rewrite E. apply IH. exact T.
Qed.

Lemma levelOneOptimize_settled (parts : list str) :
  parts <> [] -> settled false parts = true ->
  Minimatch.levelOneOptimize parts = parts.
Proof.
  intros N S. unfold Minimatch.levelOneOptimize.
  rewrite (levelOne_settled parts [] S), app_nil_r, rev_involutive.
  destruct parts; congruence.
Qed.

Lemma parseNegate_positive (pattern : str) :
  JS.startsWith pattern "!" = false ->
  Minimatch.parseNegate pattern = (false, pattern).
Proof.
  destruct pattern as [|c t]; [reflexivity|].
  cbn [JS.startsWith list_ascii_of_string]. rewrite Ascii.eqb_sym.
  cbn [Minimatch.parseNegate].
  destruct (Ascii.eqb c "!"%char); [destruct t; discriminate | reflexivity].
Qed.








(** ** Glob rules *)





(** Two more places where the matcher leaves the wording of C2: a last [**]
    does not stand for zero segments, and a leading wildcard does not match a
    name that begins with a dot. *)
Lemma last_globstar_needs_a_segment :
  ruleMatchesPath "pkg/**" "pkg" = false
  /\ Glob.standard (normalizePath "pkg/**") (normalizePath "pkg").
Proof.
  split; [reflexivity|]. unfold Glob.standard. vm_compute.
  apply Glob.s_segment; [discriminate | | apply Glob.s_globstar_none, Glob.s_end].
  repeat (apply Glob.w_char; [discriminate | discriminate |]). constructor.
Qed.

Lemma leading_wildcard_skips_hidden :
  ruleMatchesPath "*.ts" "pkg/.a.ts" = false
  /\ Glob.standard (normalizePath "*.ts") (normalizePath "pkg/.a.ts").
Proof.
  split; [reflexivity|]. unfold Glob.standard. vm_compute.
  apply Glob.s_segment; [discriminate | | constructor].
  apply Glob.w_star_more; [discriminate|].
  apply Glob.w_star_more; [discriminate|].
  apply Glob.w_star_none.
  repeat (apply Glob.w_char; [discriminate | discriminate |]). constructor.
Qed.

(** ** Literal rules *)

Lemma parse_literal (p : str) :
  forallb (fun c => negb (Minimatch.isMagic c)) p = true ->
  Minimatch.parse p = Minimatch.Literal p.
Proof.
  intros L. unfold Minimatch.parse.
  destruct (JS.eqb p "**") eqn:G.
  - apply eqb_eq in G. subst p. discriminate.
  - destruct (JS.eqb p "") eqn:E.
    + apply eqb_eq in E. subst p. reflexivity.
    + apply no_magic_iff in L. rewrite L. reflexivity.
Qed.

Lemma segments_no_magic (s : str) :
  forallb (fun c => negb (Minimatch.isMagic c)) s = true ->
  Forall (fun p => forallb (fun c => negb (Minimatch.isMagic c)) p = true)
         (JS.split "/"%char s).
Proof.
  intros L. apply Forall_forall. intros seg I.
  apply forallb_forall. intros c C.
  rewrite forallb_forall in L. apply L.
  exact (split_segment_chars _ _ _ _ I C).
Qed.

Lemma parse_literals (P : list str) :
  Forall (fun p => forallb (fun c => negb (Minimatch.isMagic c)) p = true) P ->
  map Minimatch.parse P = map Minimatch.Literal P.
Proof.
  induction 1 as [|p P L _ IH]; [reflexivity|].
  cbn [map]. rewrite (parse_literal _ L), IH. reflexivity.
Qed.

Lemma settled_literals (P : list str) (after : bool) :
  Forall (fun p => forallb (fun c => negb (Minimatch.isMagic c)) p = true) P ->
  forallb (fun p => negb (JS.eqb p "..")) P = true ->
  settled after P = true
  /\ (P <> [] \/ after = false -> settled after (P ++ [("**" : str)]) = true).
Proof.
  intros L. revert after. induction L as [|p P Lp _ IH]; intros after D.
  - split; [reflexivity|].
    intros [N| ->]; [exfalso; apply N; reflexivity | reflexivity].
  - cbn [forallb] in D. apply andb_true_iff in D. destruct D as [Dp D].
    assert (G : JS.eqb p "**" = false).
    { apply eqb_neq. intros ->. discriminate. }
    cbn [settled app]. rewrite Dp, G, andb_false_r. cbn [negb andb].
    destruct (IH false D) as [A B]. split; [exact A|].
    intros _. apply B. right; reflexivity.
Qed.

Lemma literal_match (P file : list str) :
  Minimatch.matchOne file (map Minimatch.Literal P) = true <->
  file = P \/ file = P ++ [[]].
Proof.
  revert file. induction P as [|p P IH]; intros file.
  - cbn [map app]. destruct file as [|f [|g fs]]; cbn [Minimatch.matchOne].
    + split; auto.
    + change (list_ascii_of_string "") with (@nil ascii). rewrite eqb_eq.
      split; [intros ->; auto | intros [E|E]; congruence].
    + split; [discriminate | intros [E|E]; discriminate].
  - cbn [map]. rewrite matchOne_hit by discriminate.
    destruct file as [|f fs].
    + split; [discriminate | intros [E|E]; discriminate].
    + cbn [hit app]. rewrite andb_true_iff, eqb_eq, IH. split.
      * intros [-> [->| ->]]; auto.
      * intros [E|E]; inversion E; subst; auto.
Qed.

Lemma directory_match (P file : list str) :
  Minimatch.matchOne file (map Minimatch.Literal P ++ [Minimatch.GLOBSTAR])
  = true <->
  exists rest,
    rest <> [] /\ file = P ++ rest
    /\ forallb (fun f => negb (Minimatch.startsWithDot f)) rest = true.
Proof.
  revert file. induction P as [|p P IH]; intros file.
  - cbn [map app]. rewrite matchOne_globstar_last. destruct file as [|f fs].
    + split; [discriminate | intros [rest [N [E _]]]; congruence].
    + split.
      * intros A. exists (f :: fs). repeat split; auto. discriminate.
      * intros [rest [_ [<- A]]]. exact A.
  - cbn [map app]. rewrite matchOne_hit by discriminate.
    destruct file as [|f fs].
    + split; [discriminate | intros [rest [_ [E _]]]; discriminate].
    + cbn [hit]. rewrite andb_true_iff, eqb_eq, IH. split.
      * intros [-> [rest [N [-> A]]]]. exists rest. auto.
      * intros [rest [N [E A]]]. inversion E; subst. eauto.
Qed.

Lemma directory_pattern_segments (cleanRule : str) :
  noDoubleSlash cleanRule = true -> endsWithSlash cleanRule = false ->
  Minimatch.slashSplit (cleanRule ++ "/**")
  = JS.split "/"%char cleanRule ++ [("**" : str)].
Proof.
  induction cleanRule as [|c s IH]; [reflexivity|].
  cbn [noDoubleSlash endsWithSlash]. rewrite andb_true_iff. intros [D N] E.
  cbn [app]. rewrite slashSplit_cons, split_cons.
  change JS.slash with "/"%char in *.
  destruct (Ascii.eqb c "/"%char) eqn:C; cbn [andb] in D.
  - destruct s as [|d s]; [discriminate|].
    apply negb_true_iff in D. cbn [app]. rewrite D.
    change (d :: s ++ "/**") with ((d :: s) ++ "/**").
    rewrite (IH N E). reflexivity.
  - assert (E' : endsWithSlash s = false) by (destruct s; auto).
    rewrite (IH N E'), (split_eta "/"%char s). reflexivity.
Qed.

Lemma startsWith_one_app (c k : ascii) (t x : str) :
  JS.startsWith ((c :: t) ++ x) [k] = JS.startsWith (c :: t) [k].
Proof. cbn [app JS.startsWith]. destruct (t ++ x), t; reflexivity. Qed.

Lemma literalRule_facts (cleanRule : str) :
  literalRule cleanRule = true ->
  forallb (fun c => negb (Minimatch.isMagic c)) cleanRule = true
  /\ JS.startsWith cleanRule "!" = false
  /\ JS.startsWith cleanRule "#" = false
  /\ noDoubleSlash cleanRule = true
  /\ endsWithSlash cleanRule = false
  /\ forallb (fun p => negb (JS.eqb p "..")) (JS.split "/"%char cleanRule) = true.
Proof.
  unfold literalRule. rewrite !andb_true_iff, !negb_true_iff. tauto.
Qed.

Lemma no_magic_no_star (s : str) :
  forallb (fun c => negb (Minimatch.isMagic c)) s = true ->
  JS.includes s "*"%char = false.
Proof.
  unfold JS.includes. induction s as [|c s IH]; [reflexivity|].
  cbn [forallb existsb]. rewrite andb_true_iff, negb_true_iff.
  unfold Minimatch.isMagic at 1. rewrite orb_false_iff.
  intros [[S _] L]. rewrite Ascii.eqb_sym, S. exact (IH L).
Qed.

Lemma minimatch_literal (cleanRule cleanPath : str) :
  literalRule cleanRule = true -> cleanRule <> [] ->
  noDoubleSlash cleanPath = true ->
  Minimatch.minimatch cleanPath cleanRule defaults = true <->
  JS.split "/"%char cleanPath = JS.split "/"%char cleanRule
  \/ JS.split "/"%char cleanPath = JS.split "/"%char cleanRule ++ [[]].
Proof.
  intros L N Sl. destruct (literalRule_facts _ L) as [M [B [H [D [_ T]]]]].
  unfold Minimatch.minimatch. rewrite H, (parseNegate_positive _ B).
  assert (E : JS.eqb cleanRule "" = false)
    by (destruct cleanRule; [exfalso; apply N|]; reflexivity).
  rewrite E, (slashSplit_split _ D), (slashSplit_split _ Sl).
  change JS.slash with "/"%char.
  pose proof (segments_no_magic _ M) as Lits.
  destruct (settled_literals _ false Lits T) as [S _].
  rewrite (levelOneOptimize_settled _ (split_not_nil _ _) S).
  rewrite (parse_literals _ Lits). cbn [matchBase andb negb].
  rewrite <- literal_match.
  destruct (Minimatch.matchOne _ _); split; congruence.
Qed.

Lemma minimatch_directory (cleanRule cleanPath : str) :
  literalRule cleanRule = true ->
  noDoubleSlash cleanPath = true ->
  Minimatch.minimatch cleanPath (cleanRule ++ "/**") defaults = true <->
  exists rest,
    rest <> [] /\ JS.split "/"%char cleanPath = JS.split "/"%char cleanRule ++ rest
    /\ forallb (fun f => negb (Minimatch.startsWithDot f)) rest = true.
Proof.
  intros L Sl. destruct (literalRule_facts _ L) as [M [B [H [D [E T]]]]].
  unfold Minimatch.minimatch.
  assert (H' : JS.startsWith (cleanRule ++ "/**") "#" = false).
  { destruct cleanRule as [|c t]; [reflexivity|].
    etransitivity; [apply (startsWith_one_app c "#"%char t "/**") | exact H]. }
  assert (B' : JS.startsWith (cleanRule ++ "/**") "!" = false).
  { destruct cleanRule as [|c t]; [reflexivity|].
    etransitivity; [apply (startsWith_one_app c "!"%char t "/**") | exact B]. }
  assert (N : JS.eqb (cleanRule ++ "/**") "" = false)
    by (destruct cleanRule; reflexivity).
  rewrite H', N, (parseNegate_positive _ B').
  rewrite (directory_pattern_segments _ D E), (slashSplit_split _ Sl).
  change JS.slash with "/"%char.
  pose proof (segments_no_magic _ M) as Lits.
  destruct (settled_literals _ false Lits T) as [_ S].
  rewrite (levelOneOptimize_settled (JS.split "/"%char cleanRule ++ ["**" : str]))
    by (auto; intros X; apply app_eq_nil in X; destruct X; discriminate).
  rewrite map_app, (parse_literals _ Lits). cbn [map].
  change (Minimatch.parse "**") with Minimatch.GLOBSTAR.
  rewrite length_app, length_map. cbn [matchBase andb negb].
  rewrite <- directory_match.
  destruct (Minimatch.matchOne _ _); split; congruence.
Qed.

Lemma segments_extend (cleanRule cleanPath : str) (rest : list str) :
  rest <> [] ->
  JS.split "/"%char cleanPath = JS.split "/"%char cleanRule ++ rest ->
  cleanPath = cleanRule ++ "/" ++ JS.join ["/"%char] rest.
Proof.
  intros N E. rewrite <- (join_split "/"%char cleanPath), E.
  rewrite join_app by (auto using split_not_nil).
  rewrite join_split. reflexivity.
Qed.

Lemma segments_equal (a b : str) :
  JS.split "/"%char a = JS.split "/"%char b -> a = b.
Proof.
  intros E. rewrite <- (join_split "/"%char a), E. apply join_split.
Qed.

(** C1, as amended: for a normalized rule made of literal segments (no
    [*], [?], brace, bracket or parenthesis, no leading [!] or [#], no empty
    segment between slashes, no trailing slash, no [..] segment) and a
    normalized file path with no empty segment between slashes and with no
    segment that begins with a dot below the rule, the rule matches exactly
    when the path equals the rule or begins with the rule followed by [/];
    and [/pkg/foo] does not match [/pkg/foobar/x]. *)
Theorem literal_rule_matches_under_directory :
  (forall rule filePath : str,
      let cleanRule := normalizePath rule in
      let cleanPath := normalizePath filePath in
      literalRule cleanRule = true ->
      noDoubleSlash cleanPath = true ->
      (forall below,
          cleanPath = cleanRule ++ "/" ++ below ->
          forallb (fun f => negb (Minimatch.startsWithDot f))
                  (JS.split "/"%char below) = true) ->
      ruleMatchesPath rule filePath = true <-> underRule rule filePath)
  /\ ruleMatchesPath "/pkg/foo" "/pkg/foobar/x" = false.
Proof.
  split; [|reflexivity].
  intros rule filePath cleanRule cleanPath L Sl Dots.
  unfold ruleMatchesPath, underRule. fold cleanRule cleanPath.
  destruct (literalRule_facts _ L) as [M _].
  rewrite (no_magic_no_star _ M), orb_true_iff.
  change (@minimatch npm_minimatch) with Minimatch.minimatch.
  rewrite (minimatch_directory _ _ L Sl), startsWith_iff.
  assert (Below : forall below,
             cleanPath = cleanRule ++ "/" ++ below ->
             exists rest,
               rest <> []
               /\ JS.split "/"%char cleanPath
                  = JS.split "/"%char cleanRule ++ rest
               /\ forallb (fun f => negb (Minimatch.startsWithDot f)) rest
                  = true).
  { intros below E. exists (JS.split "/"%char below).
    split; [apply split_not_nil|]. split; [|exact (Dots below E)].
    rewrite E. apply split_app. }
  assert (Above : forall rest,
             rest <> [] ->
             JS.split "/"%char cleanPath
             = JS.split "/"%char cleanRule ++ rest ->
             exists tail, cleanPath = (cleanRule ++ "/") ++ tail).
  { intros rest N E. exists (JS.join ["/"%char] rest).
    rewrite <- app_assoc. exact (segments_extend _ _ _ N E). }
  destruct cleanRule as [|c t] eqn:R.
  - split.
    + intros [A|[rest [N [E _]]]].
      * left. unfold Minimatch.minimatch in A. cbn in A.
        apply eqb_eq in A. exact A.
      * right. exact (Above rest N E).
    + intros [->|[tail E]]; [left; reflexivity|].
      right. apply (Below tail). rewrite E, <- app_assoc. reflexivity.
  - rewrite (minimatch_literal _ _ L) by (auto; discriminate). split.
    + intros [[A|A]|[rest [N [E _]]]].
      * left. exact (segments_equal _ _ A).
      * right. apply (Above [[]]); [discriminate | exact A].
      * right. exact (Above rest N E).
    + intros [->|[tail E]].
      * left; left; reflexivity.
      * right. apply (Below tail). rewrite E, <- app_assoc. reflexivity.
Qed.

Lemma literal_rule_matches_witness :
  ruleMatchesPath "/pkg/lib" "pkg/lib/utils/helper.ts" = true <->
  underRule "/pkg/lib" "pkg/lib/utils/helper.ts".
Proof.
  apply (proj1 literal_rule_matches_under_directory
               "/pkg/lib" "pkg/lib/utils/helper.ts").
  - reflexivity.
  - reflexivity.
  - intros below E. vm_compute in E. inversion E. reflexivity.
Defined.

(** C1 as stated fails: a rule without [*] still goes through the glob
    matcher, where [?] stands for any one character. *)
Lemma question_mark_rule_matches_other_name :
  JS.includes (normalizePath "/pkg/fo?") "*"%char = false
  /\ ~ (ruleMatchesPath "/pkg/fo?" "pkg/foo" = true <->
        underRule "/pkg/fo?" "pkg/foo").
Proof.
  split; [reflexivity|]. intros [A _]. specialize (A eq_refl).
  destruct A as [A|A]; vm_compute in A; discriminate.
Qed.

(** A file whose name begins with a dot is not matched by the rule of the
    directory it lies in. *)
Lemma directory_rule_skips_hidden_file :
  ruleMatchesPath "/pkg" "pkg/.eslintrc" = false
  /\ underRule "/pkg" "pkg/.eslintrc".
Proof. split; [reflexivity | right; reflexivity]. Qed.

(** ** The expectations of [validator.test.ts] *)

Example tests_isValidCodeOwnersLine :
  map isValidCodeOwnersLine
      ["# comment" : str; "## section" : str; "#" : str; "" : str;
       "   " : str; "/pkg/lib @owner" : str; "*.ts @team" : str;
       "  /pkg @owner" : str]
  = [false; false; false; false; false; true; true; true].
Proof. reflexivity. Qed.

Example tests_ruleMatchesPath :
  map (fun t : str * str => ruleMatchesPath (fst t) (snd t))
      [("/pkg/lib/index.ts" : str, "pkg/lib/index.ts" : str);
       ("pkg/config.json" : str, "pkg/config.json" : str);
       ("/pkg/lib/file.ts" : str, "./pkg/lib/file.ts" : str);
       ("/pkg" : str, "pkg/lib/index.ts" : str);
       ("/pkg/lib" : str, "pkg/lib/utils/helper.ts" : str);
       ("/pkg/lib" : str, "pkg/utils/helper.ts" : str);
       ("/pkg/foo" : str, "pkg/foobar/index.ts" : str);
       ("/.config/run-*" : str, ".config/run-tests.sh" : str);
       ("/.config/run-*" : str, ".config/run-lint.js" : str);
       ("*.ts" : str, "pkg/lib/index.ts" : str);
       ("*.json" : str, "config/settings.json" : str);
       ("/.config/run-*" : str, ".config/other.sh" : str);
       ("*.ts" : str, "pkg/lib/index.js" : str);
       ("pkg/**/foo.ts" : str, "pkg/a/foo.ts" : str);
       ("pkg/**/foo.ts" : str, "pkg/a/b/foo.ts" : str);
       ("pkg/**/foo.ts" : str, "pkg/foo.ts" : str);
       ("pkg/**/foo.ts" : str, "pkg/bar.ts" : str)]
  = [true; true; true; true; true; false; false; true; true; true; true;
     false; false; true; true; true; false].
Proof. vm_compute. reflexivity. Qed.

Example tests_isRuleRelevantToFolders :
  map (fun t : str * list str => isRuleRelevantToFolders (fst t) (snd t))
      [("/src/lib" : str, ["src" : str]);
       ("/src/lib/utils" : str, ["src/lib" : str]);
       ("/src" : str, ["src/lib" : str]);
       ("/pkg" : str, ["pkg/modules/foo" : str]);
       ("/src" : str, ["src" : str]);
       ("src" : str, ["src" : str]);
       ("/docs" : str, ["src" : str]);
       ("/pkg/other" : str, ["pkg/lib" : str]);
       ("*.ts" : str, ["src" : str]);
       ("/src/*.ts" : str, ["src" : str]);
       ("/src/**/*.ts" : str, ["src/lib" : str]);
       ("/src/lib" : str, ["src" : str; "pkg" : str]);
       ("/pkg/utils" : str, ["src" : str; "pkg" : str]);
       ("/docs" : str, ["src" : str; "pkg" : str])]
  = [true; true; true; true; true; true; false; false; false; true; true;
     true; true; false].
Proof. vm_compute. reflexivity. Qed.

Example tests_file_without_owner :
  scanAllFiles sampleTree ["pkg" : str]
  = Some ["pkg/lib/index.ts" : str; "pkg/unowned/file.ts" : str]
  /\ computeReport (parseCodeOwnersFile ["/pkg/lib @owner" : str])
                   ["pkg" : str]
                   ["pkg/lib/index.ts" : str; "pkg/unowned/file.ts" : str]
     = {| unusedRules := [];
          uncoveredFiles := ["pkg/unowned/file.ts" : str] |}
  /\ validateCodeOwners (Some ["/pkg @owner" : str]) sampleTree ["pkg" : str]
     = Resolved.
Proof. repeat split; vm_compute; reflexivity. Qed.

(** * Further properties *)

(** ** The manifest *)

Lemma parse_as_patterns (lines : list str) (acc : RuleMap) :
  fold_left
    (fun rules line =>
       if isValidCodeOwnersLine line then map_set (pathPattern line) 0 rules
       else rules)
    lines acc
  = fold_left (fun rules k => map_set k 0 rules) (patternsOf lines) acc.
Proof.
  revert acc. unfold patternsOf.
  induction lines as [|l lines IH]; intros acc; [reflexivity|].
  cbn [fold_left filter]. destruct (isValidCodeOwnersLine l); cbn [map fold_left];
    apply IH.
Qed.

Lemma keys_map_set_list (k : str) (v : nat) (m : RuleMap) :
  keys (map_set k v m)
  = if existsb (JS.eqb k) (keys m) then keys m else keys m ++ [k].
Proof.
  induction m as [|[k0 v0] m IH]; [reflexivity|].
  cbn [map_set keys map fst existsb].
  destruct (JS.eqb k k0); cbn [orb keys map fst]; [reflexivity|].
  fold (keys m) in *. fold (keys (map_set k v m)). rewrite IH.
  destruct (existsb (JS.eqb k) (keys m)); reflexivity.
Qed.

Lemma keys_of_patterns (ks : list str) (acc : RuleMap) :
  keys (fold_left (fun rules k => map_set k 0 rules) ks acc)
  = keys acc ++ firstOccurrences (keys acc) ks.
Proof.
  revert acc. induction ks as [|k ks IH]; intros acc.
  - cbn [fold_left firstOccurrences]. rewrite app_nil_r. reflexivity.
  - cbn [fold_left firstOccurrences]. rewrite IH, keys_map_set_list.
    destruct (existsb (JS.eqb k) (keys acc)); [reflexivity|].
    rewrite <- app_assoc. reflexivity.
Qed.

(** X1: the map of rules depends on the manifest only through the patterns
    of its accepted lines, in order: comment lines, blank lines and the
    owners of a line change nothing. *)
Theorem manifest_read_through_patterns (lines lines' : list str) :
  patternsOf lines = patternsOf lines' ->
  parseCodeOwnersFile lines = parseCodeOwnersFile lines'.
Proof.
  intros E. unfold parseCodeOwnersFile. rewrite !parse_as_patterns, E.
  reflexivity.
Qed.

Lemma manifest_read_through_patterns_witness :
  parseCodeOwnersFile ["# owners" : str; "/pkg @a" : str; "" : str;
                       "*.ts @b @c" : str]
  = parseCodeOwnersFile ["/pkg @team" : str; "*.ts" : str].
Proof.
  apply (manifest_read_through_patterns
           ["# owners" : str; "/pkg @a" : str; "" : str; "*.ts @b @c" : str]
           ["/pkg @team" : str; "*.ts" : str]).
  reflexivity.
Defined.

(** X2: the rules of a manifest are the patterns of its accepted lines, each
    once, at the place of its first line, all with a counter of zero; a
    string that is no such pattern is not a key. *)
Theorem manifest_rules_once_in_first_order (lines : list str) :
  keys (parseCodeOwnersFile lines) = firstOccurrences [] (patternsOf lines)
  /\ NoDup (keys (parseCodeOwnersFile lines))
  /\ (forall k,
         map_get k (parseCodeOwnersFile lines)
         = if existsb (JS.eqb k) (patternsOf lines) then Some 0 else None).
Proof.
  split; [|split].
  - unfold parseCodeOwnersFile. rewrite parse_as_patterns.
    apply (keys_of_patterns (patternsOf lines) []).
  - apply parseCodeOwnersFile_NoDup.
  - intros k. destruct (existsb (JS.eqb k) (patternsOf lines)) eqn:E.
    + apply existsb_exists in E. destruct E as [x [I E]].
      apply eqb_eq in E. subst x.
      assert (K : In k (keys (parseCodeOwnersFile lines))).
      { unfold parseCodeOwnersFile. apply parse_keys_from. right.
        unfold patternsOf in I. apply in_map_iff in I.
        destruct I as [l [P I]]. apply filter_In in I. destruct I as [I V].
        exists l. auto. }
      apply map_get_In in K. destruct K as [c C]. rewrite C. f_equal.
      exact (map_get_zero _ _ _ (parseCodeOwnersFile_zero lines) C).
    + destruct (map_get k (parseCodeOwnersFile lines)) as [c|] eqn:C;
        [|reflexivity].
      assert (K : In k (keys (parseCodeOwnersFile lines)))
        by (apply map_get_In; eauto).
      unfold parseCodeOwnersFile in K. apply parse_keys_from in K.
      destruct K as [[]|[l [I [V P]]]].
      assert (X : existsb (JS.eqb k) (patternsOf lines) = true).
      { apply existsb_exists. exists k. split; [|apply eqb_refl].
        unfold patternsOf. apply in_map_iff. exists l. split; auto.
        apply filter_In. auto. }
      congruence.
Qed.

(** ** Ownership checks and the report *)

Section ReportFacts.

Context `{GlobMatcher}.

Lemma covered_iff (rules : list str) (f : str) :
  covered rules f = true <->
  exists rule, In rule rules /\ ruleMatchesPath rule f = true.
Proof. unfold covered. apply existsb_exists. Qed.

Lemma covered_false_iff (rules : list str) (f : str) :
  covered rules f = false <->
  forall rule, In rule rules -> ruleMatchesPath rule f = false.
Proof.
  unfold covered. induction rules as [|r rules IH]; cbn [existsb].
  - split; [intros _ ? [] | reflexivity].
  - rewrite orb_false_iff, IH. split.
    + intros [A B] x [<-|I]; auto.
    + intros A. split; [apply A; left; reflexivity|].
      intros x I. apply A. right; exact I.
Qed.

(** X3: on a map with distinct keys, [checkOwnership] answers whether some
    rule of the map matches the file, and it neither adds, removes nor
    reorders rules. *)
Theorem checkOwnership_answer (filePath : str) (rules : RuleMap) :
  NoDup (keys rules) ->
  (fst (checkOwnership filePath rules) = true <->
   exists rule, In rule (keys rules) /\ ruleMatchesPath rule filePath = true)
  /\ keys (snd (checkOwnership filePath rules)) = keys rules.
Proof.
  intros N. rewrite (checkOwnership_spec _ _ N). cbn [fst snd].
  split; [apply covered_iff | apply keys_credit].
Qed.

(** X4: the uncovered files are the enumerated paths that no rule of the
    manifest matches, in the order of the enumeration and as often as they
    were enumerated. *)
Theorem uncovered_files_are_the_unmatched (lines folders files : list str) :
  let rules := parseCodeOwnersFile lines in
  uncoveredFiles (computeReport rules folders files)
  = filter (fun f => negb (covered (keys rules) f)) files
  /\ (forall f,
         In f (uncoveredFiles (computeReport rules folders files)) <->
         In f files
         /\ forall rule, In rule (keys rules) ->
                         ruleMatchesPath rule f = false).
Proof.
  intros rules.
  rewrite (computeReport_spec _ _ _ (parseCodeOwnersFile_NoDup lines)).
  cbn [uncoveredFiles]. split; [reflexivity|].
  intros f. rewrite filter_In, negb_true_iff, covered_false_iff. tauto.
Qed.

(** X5: once the files are enumerated, the run succeeds exactly when every
    enumerated file is matched by some rule of the manifest and every rule
    that is relevant to the folders matches some enumerated file. *)
Theorem run_succeeds_iff_covered_and_used
        (lines : list str) (fs : FileSystem) (folders files : list str) :
  scanAllFiles fs folders = Some files ->
  validateCodeOwners (Some lines) fs folders = Resolved <->
  (forall f, In f files ->
             exists rule, In rule (keys (parseCodeOwnersFile lines))
                          /\ ruleMatchesPath rule f = true)
  /\ (forall rule,
         In rule (keys (parseCodeOwnersFile lines)) ->
         isRuleRelevantToFolders rule folders = true ->
         exists f, In f files /\ ruleMatchesPath rule f = true).
Proof.
  intros S. unfold validateCodeOwners. rewrite S, conclude_resolved.
  set (rules := parseCodeOwnersFile lines).
  pose proof (parseCodeOwnersFile_NoDup lines) as N. fold rules in N.
  pose proof (parseCodeOwnersFile_zero lines) as Z. fold rules in Z.
  rewrite (computeReport_spec _ _ _ N). cbn [unusedRules uncoveredFiles].
  split.
  - intros [U V]. split.
    + intros f I. apply covered_iff.
      destruct (covered (keys rules) f) eqn:C; [reflexivity|].
      assert (X : In f (filter (fun f => negb (covered (keys rules) f)) files))
        by (apply filter_In; rewrite C; auto).
      rewrite V in X. destruct X.
    + intros rule K R.
      destruct (Nat.eq_dec (matchCount rule files) 0) as [M|M].
      * assert (X : In rule (unusedRulesOf (creditAll files rules) folders))
          by (apply (unused_after_run _ _ _ _ Z); auto).
        rewrite U in X. destruct X.
      * unfold matchCount in M.
        destruct (filter (ruleMatchesPath rule) files) as [|f fl] eqn:F;
          [cbn in M; congruence|].
        assert (X : In f (filter (ruleMatchesPath rule) files))
          by (rewrite F; left; reflexivity).
        apply filter_In in X. exists f. exact X.
  - intros [A B]. split.
    + destruct (unusedRulesOf (creditAll files rules) folders) as [|r rs] eqn:U;
        [reflexivity|].
      assert (X : In r (unusedRulesOf (creditAll files rules) folders))
        by (rewrite U; left; reflexivity).
      apply (unused_after_run _ _ _ _ Z) in X. destruct X as [K [M R]].
      destruct (B r K R) as [f [I T]].
      rewrite matchCount_zero in M. rewrite (M f I) in T. discriminate.
    + destruct (filter (fun f => negb (covered (keys rules) f)) files)
        as [|f fl] eqn:V; [reflexivity|].
      assert (X : In f (filter (fun f => negb (covered (keys rules) f)) files))
        by (rewrite V; left; reflexivity).
      apply filter_In in X. destruct X as [I C].
      apply negb_true_iff in C. apply A, covered_iff in I. congruence.
Qed.

Lemma keys_grow (lines more : list str) (k : str) :
  In k (keys (parseCodeOwnersFile lines)) ->
  In k (keys (parseCodeOwnersFile (lines ++ more))).
Proof.
  unfold parseCodeOwnersFile. rewrite !parse_keys_from.
  intros [[]|[l [I V]]]. right. exists l. split; [|exact V].
  apply in_or_app. auto.
Qed.

(** X6: lines added to the manifest never make a file uncovered: every file
    uncovered with the longer manifest is uncovered with the shorter one. *)
Theorem more_rules_never_uncover
        (lines more folders files : list str) (f : str) :
  In f (uncoveredFiles
          (computeReport (parseCodeOwnersFile (lines ++ more)) folders files)) ->
  In f (uncoveredFiles
          (computeReport (parseCodeOwnersFile lines) folders files)).
Proof.
  rewrite !(computeReport_spec _ _ _ (parseCodeOwnersFile_NoDup _)).
  cbn [uncoveredFiles]. rewrite !filter_In, !negb_true_iff, !covered_false_iff.
  intros [I A]. split; [exact I|].
  intros rule K. apply A, keys_grow, K.
Qed.

Lemma matchCount_app (rule : str) (a b : list str) :
  matchCount rule (a ++ b) = matchCount rule a + matchCount rule b.
Proof. unfold matchCount. rewrite filter_app, length_app. reflexivity. Qed.

(** X7: files added to the enumeration never make a rule unused: every rule
    unused with more files is unused with fewer. *)
Theorem more_files_never_orphan
        (lines folders files more : list str) (rule : str) :
  In rule (unusedRules
             (computeReport (parseCodeOwnersFile lines) folders
                            (files ++ more))) ->
  In rule (unusedRules
             (computeReport (parseCodeOwnersFile lines) folders files)).
Proof.
  rewrite !(computeReport_spec _ _ _ (parseCodeOwnersFile_NoDup _)).
  cbn [unusedRules].
  rewrite !(unused_after_run _ _ _ _ (parseCodeOwnersFile_zero lines)).
  rewrite matchCount_app. intros [K [M R]]. repeat split; auto. lia.
Qed.

End ReportFacts.

Lemma checkOwnership_answer_witness :
  (fst (checkOwnership "pkg/lib/a.ts" [("/pkg" : str, 0); ("/docs" : str, 0)])
   = true <->
   exists rule, In rule (keys [("/pkg" : str, 0); ("/docs" : str, 0)])
                /\ ruleMatchesPath rule "pkg/lib/a.ts" = true)
  /\ keys (snd (checkOwnership "pkg/lib/a.ts"
                               [("/pkg" : str, 0); ("/docs" : str, 0)]))
     = keys [("/pkg" : str, 0); ("/docs" : str, 0)].
Proof.
  apply (checkOwnership_answer "pkg/lib/a.ts"
                               [("/pkg" : str, 0); ("/docs" : str, 0)]).
  repeat constructor; cbn; intuition discriminate.
Defined.

Lemma run_succeeds_witness :
  validateCodeOwners (Some ["/pkg @owner" : str]) sampleTree ["pkg" : str]
  = Resolved <->
  (forall f, In f ["pkg/lib/index.ts" : str; "pkg/unowned/file.ts" : str] ->
             exists rule, In rule (keys (parseCodeOwnersFile ["/pkg @owner" : str]))
                          /\ ruleMatchesPath rule f = true)
  /\ (forall rule,
         In rule (keys (parseCodeOwnersFile ["/pkg @owner" : str])) ->
         isRuleRelevantToFolders rule ["pkg" : str] = true ->
         exists f, In f ["pkg/lib/index.ts" : str; "pkg/unowned/file.ts" : str]
                   /\ ruleMatchesPath rule f = true).
Proof.
  apply (run_succeeds_iff_covered_and_used
           ["/pkg @owner" : str] sampleTree ["pkg" : str]
           ["pkg/lib/index.ts" : str; "pkg/unowned/file.ts" : str]).
  reflexivity.
Defined.

Lemma more_rules_never_uncover_witness :
  In ("pkg/unowned/file.ts" : str)
     (uncoveredFiles
        (computeReport (parseCodeOwnersFile ["/pkg/lib @owner" : str])
                       ["pkg" : str]
                       ["pkg/lib/index.ts" : str; "pkg/unowned/file.ts" : str])).
Proof.
  apply (more_rules_never_uncover
           ["/pkg/lib @owner" : str] ["/docs @owner" : str] ["pkg" : str]
           ["pkg/lib/index.ts" : str; "pkg/unowned/file.ts" : str]).
  vm_compute. auto.
Defined.

Lemma more_files_never_orphan_witness :
  In ("/pkg/removed" : str)
     (unusedRules
        (computeReport (parseCodeOwnersFile ["/pkg/removed @owner" : str])
                       ["pkg" : str] ["pkg/lib/index.ts" : str])).
Proof.
  apply (more_files_never_orphan
           ["/pkg/removed @owner" : str] ["pkg" : str]
           ["pkg/lib/index.ts" : str] ["pkg/lib/b.ts" : str]).
  vm_compute. auto.
Defined.

(** ** The enumeration of files *)

Lemma dir_induction (P : dir -> Prop) :
  P Unreadable ->
  (forall items,
      (forall name d, In (name, Directory d) items -> P d) ->
      P (Listing items)) ->
  forall d, P d.
Proof.
  intros Hu Hl.
  refine (fix IH (d : dir) : P d :=
            match d with
            | Unreadable => Hu
            | Listing items =>
                Hl items
                   ((fix below (l : list (str * node))
                     : forall name d', In (name, Directory d') l -> P d' :=
                       match l with
                       | [] => fun name d' (I : In _ []) => match I with end
                       | (n, nd) :: t =>
                           match nd as nd0
                                 return forall name d',
                                   In (name, Directory d') ((n, nd0) :: t) ->
                                   P d'
                           with
                           | Directory d0 =>
                               fun name d' I =>
                                 match I with
                                 | or_introl E =>
                                     match E in _ = y
                                           return match snd y with
                                                  | Directory x => P x
                                                  | _ => True
                                                  end
                                     with
                                     | eq_refl => IH d0
                                     end
                                 | or_intror I' => below t name d' I'
                                 end
                           | RegularFile =>
                               fun name d' I =>
                                 match I with
                                 | or_introl E =>
                                     match E in _ = y
                                           return match snd y with
                                                  | RegularFile => True
                                                  | _ => P d'
                                                  end
                                     with
                                     | eq_refl => Logic.I
                                     end
                                 | or_intror I' => below t name d' I'
                                 end
                           | OtherNode =>
                               fun name d' I =>
                                 match I with
                                 | or_introl E =>
                                     match E in _ = y
                                           return match snd y with
                                                  | OtherNode => True
                                                  | _ => P d'
                                                  end
                                     with
                                     | eq_refl => Logic.I
                                     end
                                 | or_intror I' => below t name d' I'
                                 end
                           end
                       end) items)
            end).
Qed.

Lemma getAllFiles_listing (directoryPath : str) (items : list (str * node)) :
  getAllFiles directoryPath (Listing items)
  = match allOrNothing (nestedOf directoryPath items) with
    | Some nested => Some (filesOf directoryPath items ++ List.concat nested)
    | None => None
    end.
Proof. reflexivity. Qed.

Lemma allOrNothing_some {A : Type} (results : list (option A)) (xs : list A) :
  allOrNothing results = Some xs <-> results = map Some xs.
Proof.
  revert xs. induction results as [|r results IH]; intros xs.
  - cbn. split.
    + intros E. inversion E. reflexivity.
    + destruct xs; [reflexivity | discriminate].
  - destruct r as [x|]; cbn [allOrNothing].
    + destruct (allOrNothing results) as [ys|] eqn:E.
      * split.
        -- intros X. inversion X; subst. cbn [map]. f_equal.
           apply IH. reflexivity.
        -- destruct xs as [|y xs]; [discriminate|]. cbn [map].
           intros X. inversion X; subst.
           assert (Y : Some ys = Some xs) by (apply IH; reflexivity).
           inversion Y. reflexivity.
      * split; [discriminate|].
        destruct xs as [|y xs]; [discriminate|]. cbn [map].
        intros X. inversion X; subst.
        assert (Y : @None (list A) = Some xs) by (apply IH; reflexivity).
        discriminate.
    + split; [discriminate|]. destruct xs; discriminate.
Qed.

Lemma allOrNothing_none {A : Type} (results : list (option A)) :
  allOrNothing results = None <-> In None results.
Proof.
  induction results as [|r results IH]; cbn [allOrNothing In].
  - split; [discriminate | intros []].
  - destruct r as [x|].
    + destruct (allOrNothing results); split.
      * discriminate.
      * intros [E|I]; [discriminate|]. apply IH in I. discriminate.
      * intros _. right. apply IH. reflexivity.
      * reflexivity.
    + split; auto.
Qed.

Lemma allOrNothing_app {A : Type} (a b : list (option A)) :
  allOrNothing (a ++ b)
  = match allOrNothing a, allOrNothing b with
    | Some xs, Some ys => Some (xs ++ ys)
    | _, _ => None
    end.
Proof.
  induction a as [|[x|] a IH]; cbn [app allOrNothing].
  - destruct (allOrNothing b); reflexivity.
  - rewrite IH. destruct (allOrNothing a), (allOrNothing b); reflexivity.
  - reflexivity.
Qed.

Lemma filesOf_In (directoryPath p : str) (items : list (str * node)) :
  In p (filesOf directoryPath items) <->
  exists name, In (name, RegularFile) items /\ p = directoryPath ++ "/" ++ name.
Proof.
  induction items as [|[n nd] items IH]; cbn [filesOf In].
  - split; [intros [] | intros [? [[] _]]].
  - destruct nd; cbn [In]; fold (filesOf directoryPath items); rewrite ?IH.
    + split.
      * intros [<-|[name [I E]]]; eauto.
      * intros [name [[E|I] ->]]; [inversion E; auto | eauto].
    + split.
      * intros [name [I E]]; eauto.
      * intros [name [[E|I] ->]]; [discriminate | eauto].
    + split.
      * intros [name [I E]]; eauto.
      * intros [name [[E|I] ->]]; [discriminate | eauto].
Qed.

Lemma nestedOf_In (directoryPath : str) (items : list (str * node))
      (r : option (list str)) :
  In r (nestedOf directoryPath items) <->
  exists name d, In (name, Directory d) items
                 /\ r = getAllFiles (directoryPath ++ "/" ++ name) d.
Proof.
  induction items as [|[n nd] items IH]; cbn [nestedOf In].
  - split; [intros [] | intros [? [? [[] _]]]].
  - destruct nd; cbn [In]; fold (nestedOf directoryPath items); rewrite ?IH.
    + split.
      * intros [name [d [I E]]]; eauto.
      * intros [name [d [[E|I] ->]]]; [discriminate | eauto].
    + split.
      * intros [<-|[name [d' [I E]]]]; eauto.
      * intros [name [d' [[E|I] ->]]]; [inversion E; auto | eauto 6].
    + split.
      * intros [name [d [I E]]]; eauto.
      * intros [name [d [[E|I] ->]]]; [discriminate | eauto].
Qed.

Lemma readable_listing (items : list (str * node)) :
  readable (Listing items) = true <->
  forall name d, In (name, Directory d) items -> readable d = true.
Proof.
  cbn [readable]. induction items as [|[n nd] items IH].
  - split; [intros _ ? ? [] | reflexivity].
  - destruct nd.
    + rewrite IH. split.
      * intros A name d [E|I]; [discriminate | eauto].
      * intros A name d I. apply (A name). right; exact I.
    + rewrite andb_true_iff, IH. split.
      * intros [R A] name d' [E|I]; [inversion E; subst; exact R | eauto].
      * intros A. split; [apply (A n); left; reflexivity|].
        intros name d' I. apply (A name). right; exact I.
    + rewrite IH. split.
      * intros A name d [E|I]; [discriminate | eauto].
      * intros A name d I. apply (A name). right; exact I.
Qed.

Lemma getAllFiles_none_iff (directoryPath : str) (d : dir) :
  getAllFiles directoryPath d = None <-> readable d = false.
Proof.
  revert directoryPath. induction d as [|items IH] using dir_induction;
    intros directoryPath.
  - split; reflexivity.
  - rewrite getAllFiles_listing.
    assert (E : allOrNothing (nestedOf directoryPath items) = None <->
                readable (Listing items) = false).
    { rewrite allOrNothing_none, nestedOf_In. split.
      - intros [name [d [I E]]]. symmetry in E. apply (IH _ _ I) in E.
        destruct (readable (Listing items)) eqn:R; [|reflexivity].
        rewrite readable_listing in R. rewrite (R _ _ I) in E. discriminate.
      - intros R.
        assert (X : ~ forall name d, In (name, Directory d) items ->
                                     readable d = true).
        { intros A. apply readable_listing in A. congruence. }
        clear R. induction items as [|[n nd] items IHi].
        + exfalso. apply X. intros ? ? [].
        + destruct nd as [|d0|].
          * destruct IHi as [name [d [I E]]].
            -- intros name d I. apply (IH name). right; exact I.
            -- intros A. apply X. intros name d [E|I]; [discriminate|eauto].
            -- exists name, d. split; [right; exact I | exact E].
          * destruct (readable d0) eqn:R0.
            -- destruct IHi as [name [d [I E]]].
               ++ intros name d I. apply (IH name). right; exact I.
               ++ intros A. apply X. intros name d [E|I];
                    [inversion E; subst; exact R0 | eauto].
               ++ exists name, d. split; [right; exact I | exact E].
            -- exists n, d0. split; [left; reflexivity|]. symmetry.
               apply (IH n d0 (or_introl eq_refl)). exact R0.
          * destruct IHi as [name [d [I E]]].
            -- intros name d I. apply (IH name). right; exact I.
            -- intros A. apply X. intros name d [E|I]; [discriminate|eauto].
            -- exists name, d. split; [right; exact I | exact E]. }
    destruct (allOrNothing (nestedOf directoryPath items)) as [nested|];
      split; intros A; try discriminate; try reflexivity.
    + apply E in A. discriminate.
    + apply E. reflexivity.
Qed.

Lemma in_concat_some (nested : list (list str)) (results : list (option (list str)))
      (p : str) :
  results = map Some nested ->
  In p (List.concat nested) <-> exists l, In (Some l) results /\ In p l.
Proof.
  intros ->. rewrite in_concat. split.
  - intros [l [I P]]. exists l. split; [apply in_map, I | exact P].
  - intros [l [I P]]. apply in_map_iff in I. destruct I as [l' [E I]].
    inversion E; subst. eauto.
Qed.

Lemma getAllFiles_In (directoryPath : str) (d : dir) (files : list str) :
  getAllFiles directoryPath d = Some files ->
  forall p,
    In p files <->
    exists rel, fileAt d rel /\ p = directoryPath ++ "/" ++ rel.
Proof.
  revert directoryPath files.
  induction d as [|items IH] using dir_induction; intros directoryPath files.
  - discriminate.
  - rewrite getAllFiles_listing.
    destruct (allOrNothing (nestedOf directoryPath items)) as [nested|] eqn:A;
      [|discriminate].
    intros E p. inversion E; subst files. clear E.
    apply allOrNothing_some in A.
    rewrite in_app_iff, filesOf_In, (in_concat_some _ _ _ A). split.
    + intros [[name [I ->]]|[l [I P]]].
      * exists name. split; [apply file_here, I | reflexivity].
      * apply nestedOf_In in I. destruct I as [name [d [I G]]].
        symmetry in G. apply (IH _ _ I _ _ G) in P.
        destruct P as [rel [F ->]]. exists (name ++ "/" ++ rel).
        split; [exact (file_below _ _ _ _ I F)|].
        rewrite <- !app_assoc. reflexivity.
    + intros [rel [F ->]]. inversion F as [? name I|? name d rel' I F']; subst.
      * left. eauto.
      * right.
        assert (N : In (getAllFiles (directoryPath ++ "/" ++ name) d)
                       (nestedOf directoryPath items))
          by (apply nestedOf_In; eauto).
        rewrite A in N. apply in_map_iff in N. destruct N as [l [G L]].
        exists l. split; [rewrite A; apply in_map, L|].
        apply (IH _ _ I _ _ (eq_sym G)). exists rel'. split; [exact F'|].
        rewrite <- !app_assoc. reflexivity.
Qed.

Lemma scan_cons (fs : FileSystem) (folder : str) (rest : list str) :
  scanAllFiles fs (folder :: rest)
  = match getAllFiles folder (fs folder), scanAllFiles fs rest with
    | Some files, Some more => Some (files ++ more)
    | _, _ => None
    end.
Proof.
  unfold scanAllFiles. cbn [map allOrNothing].
  destruct (getAllFiles folder (fs folder)) as [files|]; [|reflexivity].
  destruct (allOrNothing _); reflexivity.
Qed.

(** X10: scanning two lists of folders one after the other is scanning both
    and appending the results, folder by folder in the order given; it fails
    when either scan fails. *)
Theorem scanAllFiles_app (fs : FileSystem) (folders more : list str) :
  scanAllFiles fs (folders ++ more)
  = match scanAllFiles fs folders, scanAllFiles fs more with
    | Some files, Some files' => Some (files ++ files')
    | _, _ => None
    end.
Proof.
  induction folders as [|folder folders IH].
  - cbn [app]. change (scanAllFiles fs []) with (Some (@nil str)).
    destruct (scanAllFiles fs more); reflexivity.
  - cbn [app]. rewrite !scan_cons, IH.
    destruct (getAllFiles folder (fs folder)) as [files|]; [|reflexivity].
    destruct (scanAllFiles fs folders), (scanAllFiles fs more);
      try reflexivity.
    rewrite app_assoc. reflexivity.
Qed.

Lemma scan_fails_iff (fs : FileSystem) (folders : list str) :
  scanAllFiles fs folders = None <->
  exists folder, In folder folders /\ readable (fs folder) = false.
Proof.
  induction folders as [|folder folders IH].
  - split; [discriminate | intros [? [[] _]]].
  - rewrite scan_cons.
    destruct (getAllFiles folder (fs folder)) as [files|] eqn:G.
    + assert (R : readable (fs folder) = true).
      { destruct (readable (fs folder)) eqn:R; [reflexivity|].
        apply getAllFiles_none_iff with (directoryPath := folder) in R.
        congruence. }
      destruct (scanAllFiles fs folders) as [more|]; split.
      * discriminate.
      * intros [x [[<-|I] U]]; [congruence|].
        assert (X : @None (list str) = None) by reflexivity.
        destruct IH as [_ IH]. discriminate IH. eauto.
      * intros _. destruct IH as [IH _].
        destruct (IH eq_refl) as [x [I U]]. exists x. split; [right|]; auto.
      * reflexivity.
    + split; [|reflexivity]. intros _. exists folder.
      split; [left; reflexivity|].
      apply getAllFiles_none_iff in G. exact G.
Qed.

(** X8: the enumeration fails exactly when some directory cannot be listed,
    however deep it lies: [getAllFiles] on a tree with such a directory, and
    [scanAllFiles] when the tree of some root folder has one. *)
Theorem enumeration_fails_iff_unreadable :
  (forall directoryPath d,
      getAllFiles directoryPath d = None <-> readable d = false)
  /\ (forall fs folders,
         scanAllFiles fs folders = None <->
         exists folder, In folder folders /\ readable (fs folder) = false).
Proof. split; [exact getAllFiles_none_iff | exact scan_fails_iff]. Qed.

Section FailureFacts.

Context `{GlobMatcher}.

Lemma conclude_not_io (r : Report) : conclude r <> Thrown IOError.
Proof. unfold conclude. destruct (errorMessages r); discriminate. Qed.

(** X11: the run ends with an input/output error, and reports nothing about
    rules or files, exactly when the manifest cannot be read or the tree of
    some tracked folder holds a directory that cannot be listed. *)
Theorem run_io_error_iff
        (manifest : option (list str)) (fs : FileSystem) (folders : list str) :
  validateCodeOwners manifest fs folders = Thrown IOError <->
  manifest = None
  \/ exists folder, In folder folders /\ readable (fs folder) = false.
Proof.
  rewrite <- scan_fails_iff. unfold validateCodeOwners.
  destruct manifest as [lines|].
  - destruct (scanAllFiles fs folders) as [files|].
    + split.
      * intros E. exfalso. exact (conclude_not_io _ E).
      * intros [E|E]; discriminate.
    + split; auto.
  - split; auto.
Qed.

End FailureFacts.

Lemma scan_In (fs : FileSystem) (folders files : list str) :
  scanAllFiles fs folders = Some files ->
  forall p,
    In p files <->
    exists folder rel,
      In folder folders /\ fileAt (fs folder) rel
      /\ p = folder ++ "/" ++ rel.
Proof.
  revert files. induction folders as [|folder folders IH]; intros files.
  - intros E p. inversion E; subst. split; [intros [] | intros [? [? [[] _]]]].
  - rewrite scan_cons.
    destruct (getAllFiles folder (fs folder)) as [here|] eqn:G; [|discriminate].
    destruct (scanAllFiles fs folders) as [more|]; [|discriminate].
    intros E p. inversion E; subst files. clear E.
    rewrite in_app_iff, (getAllFiles_In _ _ _ G), (IH more eq_refl). split.
    + intros [[rel [F ->]]|[x [rel [I [F ->]]]]].
      * exists folder, rel. repeat split; auto. left; reflexivity.
      * exists x, rel. repeat split; auto. right; exact I.
    + intros [x [rel [[<-|I] [F ->]]]]; [left | right]; eauto.
Qed.

(** X9: when it succeeds, the enumeration lists exactly the regular files of
    the trees, each as the folder path it was given, a slash and the file's
    path relative to that folder; directories and entries that are neither
    files nor directories are never listed. *)
Theorem enumeration_lists_the_regular_files :
  (forall directoryPath d files,
      getAllFiles directoryPath d = Some files ->
      forall p,
        In p files <->
        exists rel, fileAt d rel /\ p = directoryPath ++ "/" ++ rel)
  /\ (forall fs folders files,
         scanAllFiles fs folders = Some files ->
         forall p,
           In p files <->
           exists folder rel,
             In folder folders /\ fileAt (fs folder) rel
             /\ p = folder ++ "/" ++ rel).
Proof. split; [exact getAllFiles_In | exact scan_In]. Qed.

Lemma enumeration_lists_witness :
  In ("pkg/lib/index.ts" : str)
     ["pkg/lib/index.ts" : str; "pkg/unowned/file.ts" : str] <->
  exists rel,
    fileAt (sampleTree "pkg") rel
    /\ ("pkg/lib/index.ts" : str) = ("pkg" : str) ++ "/" ++ rel.
Proof.
  apply (proj1 enumeration_lists_the_regular_files
               "pkg" (sampleTree "pkg")
               ["pkg/lib/index.ts" : str; "pkg/unowned/file.ts" : str]
               eq_refl "pkg/lib/index.ts").
Defined.

(** ** More on normalizePath *)

Lemma backslashesToSlashes_clean (s : str) :
  JS.includes (JS.backslashesToSlashes s) JS.backslash = false.
Proof.
  unfold JS.includes, JS.backslashesToSlashes.
  induction s as [|c s IH]; [reflexivity|].
  cbn [map existsb]. rewrite IH, orb_false_r.
  destruct (Ascii.eqb c JS.backslash) eqn:E; [reflexivity|].
  rewrite Ascii.eqb_sym. exact E.
Qed.

Lemma dropPrefix_length (pre s : str) :
  (List.length (JS.dropPrefix pre s) <= List.length s)%nat
  /\ (JS.startsWith s pre = true ->
      List.length (JS.dropPrefix pre s) + List.length pre = List.length s)%nat.
Proof.
  unfold JS.dropPrefix. destruct (JS.startsWith s pre) eqn:E.
  - apply startsWith_iff in E. destruct E as [r ->].
    rewrite skipn_app, Nat.sub_diag, skipn_all. cbn [skipn app].
    rewrite length_app. split; [lia | intros _; lia].
  - split; [lia | discriminate].
Qed.

Lemma dropTrailingSlashes_length (s : str) :
  (List.length (JS.dropTrailingSlashes s) <= List.length s)%nat.
Proof.
  destruct (dropTrailingSlashes_prefix s) as [k E].
  rewrite E at 2. rewrite length_app. lia.
Qed.

Lemma dropTrailingSlashes_cons (c : ascii) (t : str) :
  JS.dropTrailingSlashes (c :: t)
  = match JS.dropTrailingSlashes t with
    | [] => if Ascii.eqb c JS.slash then [] else [c]
    | t' => c :: t'
    end.
Proof. reflexivity. Qed.

Lemma dropTrailingSlashes_end (s : str) :
  endsWithSlash (JS.dropTrailingSlashes s) = false.
Proof.
  induction s as [|c s IH]; [reflexivity|].
  rewrite dropTrailingSlashes_cons.
  destruct (JS.dropTrailingSlashes s) as [|d t].
  - destruct (Ascii.eqb c JS.slash) eqn:E; [reflexivity|].
    cbn [endsWithSlash]. exact E.
  - exact IH.
Qed.

Lemma dropTrailingSlashes_fixed (s : str) :
  endsWithSlash s = false -> JS.dropTrailingSlashes s = s.
Proof.
  induction s as [|c s IH]; [reflexivity|].
  rewrite dropTrailingSlashes_cons. cbn [endsWithSlash].
  destruct s as [|d s].
  - intros E. cbn [JS.dropTrailingSlashes]. rewrite E. reflexivity.
  - intros E. rewrite (IH E). reflexivity.
Qed.

Lemma dropTrailingSlashes_app_slash (s : str) :
  JS.dropTrailingSlashes (s ++ "/") = JS.dropTrailingSlashes s.
Proof.
  induction s as [|c s IH]; [reflexivity|].
  cbn [app]. rewrite !dropTrailingSlashes_cons, IH. reflexivity.
Qed.

(** X12: a normalized path holds no backslash and is no longer than the
    path it comes from; when the path holds no backslash, its normal form
    does not end with a slash. *)
Theorem normalizePath_result (p : str) :
  JS.includes (normalizePath p) JS.backslash = false
  /\ (List.length (normalizePath p) <= List.length p)%nat
  /\ (JS.includes p JS.backslash = false ->
      endsWithSlash (normalizePath p) = false).
Proof.
  unfold normalizePath. split; [apply backslashesToSlashes_clean|]. split.
  - unfold JS.backslashesToSlashes. rewrite length_map.
    pose proof (dropTrailingSlashes_length
                  (JS.dropPrefix "/" (JS.dropPrefix "./" p))).
    pose proof (proj1 (dropPrefix_length "/" (JS.dropPrefix "./" p))).
    pose proof (proj1 (dropPrefix_length "./" p)). lia.
  - intros B. rewrite backslashesToSlashes_absent.
    + apply dropTrailingSlashes_end.
    + auto using includes_dropTrailingSlashes, includes_dropPrefix.
Qed.

Lemma normalizePath_result_witness :
  endsWithSlash (normalizePath "./src/lib//") = false.
Proof.
  apply (proj2 (proj2 (normalizePath_result "./src/lib//"))). reflexivity.
Defined.

(** X13: the paths normalizePath leaves as they are are exactly those with
    no backslash, no leading [./], no leading [/] and no trailing [/]. *)
Theorem normalizePath_fixed_points (p : str) :
  normalizePath p = p <->
  JS.includes p JS.backslash = false
  /\ JS.startsWith p "./" = false
  /\ JS.startsWith p "/" = false
  /\ endsWithSlash p = false.
Proof.
  split.
  - intros E.
    assert (B : JS.includes p JS.backslash = false)
      by (rewrite <- E; apply backslashesToSlashes_clean).
    pose proof (f_equal (@List.length ascii) E) as L.
    unfold normalizePath in E, L.
    unfold JS.backslashesToSlashes in L. rewrite length_map in L.
    pose proof (dropTrailingSlashes_length
                  (JS.dropPrefix "/" (JS.dropPrefix "./" p))) as L1.
    destruct (dropPrefix_length "/" (JS.dropPrefix "./" p)) as [L2 L2'].
    destruct (dropPrefix_length "./" p) as [L3 L3'].
    assert (S1 : JS.startsWith p "./" = false).
    { destruct (JS.startsWith p "./"); [|reflexivity].
      specialize (L3' eq_refl).
      change (List.length (list_ascii_of_string "./")) with 2 in L3'. lia. }
    rewrite (dropPrefix_absent _ _ S1) in *.
    assert (S2 : JS.startsWith p "/" = false).
    { destruct (JS.startsWith p "/"); [|reflexivity].
      specialize (L2' eq_refl).
      change (List.length (list_ascii_of_string "/")) with 1 in L2'. lia. }
    rewrite (dropPrefix_absent _ _ S2) in *.
    rewrite backslashesToSlashes_absent in E
      by (apply includes_dropTrailingSlashes, B).
    repeat split; auto. rewrite <- E. apply dropTrailingSlashes_end.
  - intros [B [S1 [S2 T]]]. unfold normalizePath.
    rewrite (dropPrefix_absent _ _ S1), (dropPrefix_absent _ _ S2),
      (dropTrailingSlashes_fixed _ T).
    apply backslashesToSlashes_absent, B.
Qed.

Lemma startsWith_app_same (s pre x : str) :
  (List.length pre <= List.length s)%nat ->
  JS.startsWith (s ++ x) pre = JS.startsWith s pre.
Proof.
  revert s. induction pre as [|p pre IH]; intros [|c s] L; cbn in L.
  - destruct x; reflexivity.
  - reflexivity.
  - lia.
  - cbn [app JS.startsWith]. rewrite IH by lia. reflexivity.
Qed.

Lemma dropPrefix_app (pre s x : str) :
  (List.length pre <= List.length s)%nat ->
  JS.dropPrefix pre (s ++ x) = JS.dropPrefix pre s ++ x.
Proof.
  intros L. unfold JS.dropPrefix. rewrite (startsWith_app_same _ _ _ L).
  destruct (JS.startsWith s pre); [|reflexivity].
  rewrite skipn_app. replace (List.length pre - List.length s) with 0 by lia.
  reflexivity.
Qed.

Lemma normalizePath_leading_slash (p : str) :
  JS.startsWith p "/" = false -> JS.startsWith p "./" = false ->
  normalizePath ("/" ++ p) = normalizePath p.
Proof.
  intros S1 S2. unfold normalizePath.
  rewrite (dropPrefix_absent "./" p S2), (dropPrefix_absent "/" p S1).
  assert (E : JS.dropPrefix "/" (JS.dropPrefix "./" ("/" ++ p)) = p)
    by (destruct p; reflexivity).
  rewrite E. reflexivity.
Qed.

Lemma normalizePath_leading_dot_slash (p : str) :
  JS.startsWith p "./" = false ->
  normalizePath ("./" ++ p) = normalizePath p.
Proof.
  intros S. unfold normalizePath. rewrite (dropPrefix_absent "./" p S).
  assert (E : JS.dropPrefix "./" ("./" ++ p) = p) by (destruct p; reflexivity).
  rewrite E. reflexivity.
Qed.

Lemma normalizePath_trailing_slash (p : str) :
  p <> "." -> normalizePath (p ++ "/") = normalizePath p.
Proof.
  intros N. unfold normalizePath.
  assert (E1 : JS.dropPrefix "./" (p ++ "/") = JS.dropPrefix "./" p ++ "/").
  { destruct p as [|c [|d t]].
    - reflexivity.
    - unfold JS.dropPrefix. cbn [app JS.startsWith list_ascii_of_string].
      destruct (Ascii.eqb "."%char c) eqn:E; [|reflexivity].
      apply Ascii.eqb_eq in E. subst c. exfalso. apply N. reflexivity.
    - apply dropPrefix_app. cbn. lia. }
  rewrite E1. set (q := JS.dropPrefix "./" p).
  destruct q as [|c t] eqn:Q.
  - reflexivity.
  - rewrite (dropPrefix_app "/" (c :: t) "/") by (cbn; lia).
    rewrite dropTrailingSlashes_app_slash. reflexivity.
Qed.

Section SpellingFacts.

Context `{GlobMatcher}.

Lemma same_normal_rule (rule rule' : str) :
  normalizePath rule = normalizePath rule' ->
  (forall f, ruleMatchesPath rule f = ruleMatchesPath rule' f)
  /\ (forall folders,
         isRuleRelevantToFolders rule folders
         = isRuleRelevantToFolders rule' folders).
Proof.
  intros E. unfold ruleMatchesPath, isRuleRelevantToFolders. rewrite E.
  split; reflexivity.
Qed.

(** X14: how a rule or a path is spelled at its ends does not matter.  A
    rule with a leading slash added (when it begins with neither [/] nor
    [./]) or with a trailing slash added (when it is not [.]) matches the
    same files and is relevant to the same folders, and a file path with
    [./] put in front (when it does not already begin with [./]) is matched
    by the same rules. *)
Theorem spelling_of_slashes_is_irrelevant :
  (forall (rule f : str) (folders : list str),
      JS.startsWith rule "/" = false -> JS.startsWith rule "./" = false ->
      ruleMatchesPath ("/" ++ rule) f = ruleMatchesPath rule f
      /\ isRuleRelevantToFolders ("/" ++ rule) folders
         = isRuleRelevantToFolders rule folders)
  /\ (forall (rule f : str) (folders : list str),
         rule <> "." ->
         ruleMatchesPath (rule ++ "/") f = ruleMatchesPath rule f
         /\ isRuleRelevantToFolders (rule ++ "/") folders
            = isRuleRelevantToFolders rule folders)
  /\ (forall rule f : str,
         JS.startsWith f "./" = false ->
         ruleMatchesPath rule ("./" ++ f) = ruleMatchesPath rule f).
Proof.
  split; [|split].
  - intros rule f folders S1 S2.
    destruct (same_normal_rule _ _ (normalizePath_leading_slash rule S1 S2))
      as [A B]. split; [apply A | apply B].
  - intros rule f folders N.
    destruct (same_normal_rule _ _ (normalizePath_trailing_slash rule N))
      as [A B]. split; [apply A | apply B].
  - intros rule f S. unfold ruleMatchesPath.
    rewrite (normalizePath_leading_dot_slash f S). reflexivity.
Qed.

Lemma relevantLoop_app (cleanRule : str) (a b : list str) :
  relevantLoop cleanRule (a ++ b)
  = relevantLoop cleanRule a || relevantLoop cleanRule b.
Proof.
  induction a as [|d a IH]; [reflexivity|].
  cbn [app relevantLoop]. destruct (relevantToFolder cleanRule d); auto.
Qed.

(** X15: relevance to a list of folders is relevance to one of its parts:
    for two lists put together it is the disjunction, and two lists with the
    same folders, in any order and with any repetition, give the same
    answer. *)
Theorem relevance_decomposes :
  (forall rule a b,
      isRuleRelevantToFolders rule (a ++ b)
      = isRuleRelevantToFolders rule a || isRuleRelevantToFolders rule b)
  /\ (forall rule a b,
         (forall d, In d a <-> In d b) ->
         isRuleRelevantToFolders rule a = isRuleRelevantToFolders rule b).
Proof.
  split.
  - intros rule a b. apply relevantLoop_app.
  - intros rule a b S.
    destruct (isRuleRelevantToFolders rule a) eqn:A;
      destruct (isRuleRelevantToFolders rule b) eqn:B; try reflexivity;
      unfold isRuleRelevantToFolders in *.
    + apply relevantLoop_iff in A. destruct A as [d [I R]].
      assert (X : relevantLoop (normalizePath rule) b = true)
        by (apply relevantLoop_iff; exists d; split; [apply S, I | exact R]).
      congruence.
    + apply relevantLoop_iff in B. destruct B as [d [I R]].
      assert (X : relevantLoop (normalizePath rule) a = true)
        by (apply relevantLoop_iff; exists d; split; [apply S, I | exact R]).
      congruence.
Qed.

End SpellingFacts.

Lemma spelling_of_slashes_witness :
  (ruleMatchesPath ("/" ++ "pkg/lib") "pkg/lib/a.ts"
   = ruleMatchesPath "pkg/lib" "pkg/lib/a.ts"
   /\ isRuleRelevantToFolders ("/" ++ "pkg/lib") ["pkg" : str]
      = isRuleRelevantToFolders "pkg/lib" ["pkg" : str])
  /\ (ruleMatchesPath ("pkg/lib" ++ "/") "pkg/lib/a.ts"
      = ruleMatchesPath "pkg/lib" "pkg/lib/a.ts"
      /\ isRuleRelevantToFolders ("pkg/lib" ++ "/") ["pkg" : str]
         = isRuleRelevantToFolders "pkg/lib" ["pkg" : str])
  /\ ruleMatchesPath "/pkg" ("./" ++ "pkg/a.ts")
     = ruleMatchesPath "/pkg" "pkg/a.ts".
Proof.
  split; [|split].
  - apply (proj1 spelling_of_slashes_is_irrelevant "pkg/lib" "pkg/lib/a.ts"
                 ["pkg" : str]); reflexivity.
  - apply (proj1 (proj2 spelling_of_slashes_is_irrelevant) "pkg/lib"
                 "pkg/lib/a.ts" ["pkg" : str]).
    discriminate.
  - apply (proj2 (proj2 spelling_of_slashes_is_irrelevant) "/pkg" "pkg/a.ts").
    reflexivity.
Defined.

Lemma relevance_decomposes_witness :
  isRuleRelevantToFolders "/src/lib" ["src" : str; "pkg" : str]
  = isRuleRelevantToFolders "/src/lib" ["pkg" : str; "src" : str; "pkg" : str].
Proof.
  apply (proj2 relevance_decomposes "/src/lib"
               ["src" : str; "pkg" : str]
               ["pkg" : str; "src" : str; "pkg" : str]).
  intros d. cbn [In]. tauto.
Defined.

(** ** The folders input of [main.ts] *)

Lemma trimStart_split (s : str) :
  exists w, s = w ++ JS.trimStart s /\ forallb JS.isWhiteSpace w = true.
Proof.
  induction s as [|c s [w [E W]]].
  - exists []. split; reflexivity.
  - cbn [JS.trimStart]. destruct (JS.isWhiteSpace c) eqn:C.
    + exists (c :: w). cbn [app forallb]. rewrite C, W.
      split; [congruence | reflexivity].
    + exists []. split; reflexivity.
Qed.

Lemma trimStart_head (s : str) :
  match JS.trimStart s with
  | c :: _ => JS.isWhiteSpace c = false
  | [] => True
  end.
Proof.
  induction s as [|c s IH]; [exact I|].
  cbn [JS.trimStart]. destruct (JS.isWhiteSpace c) eqn:C; [exact IH | exact C].
Qed.

Lemma trimStart_fixed (s : str) :
  match s with
  | c :: _ => JS.isWhiteSpace c = false
  | [] => True
  end ->
  JS.trimStart s = s.
Proof. destruct s as [|c s]; [reflexivity|]. cbn. intros ->. reflexivity. Qed.

Lemma trimStart_idem (s : str) : JS.trimStart (JS.trimStart s) = JS.trimStart s.
Proof. apply trimStart_fixed, trimStart_head. Qed.

Lemma trimStart_blank (w : str) :
  forallb JS.isWhiteSpace w = true -> forall s, JS.trimStart (w ++ s) = JS.trimStart s.
Proof.
  induction w as [|c w IH]; intros W s; [reflexivity|].
  cbn [forallb] in W. apply andb_true_iff in W. destruct W as [C W].
  cbn [app JS.trimStart]. rewrite C. apply IH, W.
Qed.

Lemma trimEnd_idem (s : str) : JS.trimEnd (JS.trimEnd s) = JS.trimEnd s.
Proof.
  unfold JS.trimEnd. rewrite rev_involutive, trimStart_idem. reflexivity.
Qed.

Lemma trimEnd_split (s : str) :
  exists w, s = JS.trimEnd s ++ w /\ forallb JS.isWhiteSpace w = true.
Proof.
  unfold JS.trimEnd. destruct (trimStart_split (rev s)) as [w [E W]].
  exists (rev w). split.
  - rewrite <- rev_app_distr, <- E, rev_involutive. reflexivity.
  - rewrite forallb_forall in *. intros c I. apply W, in_rev, I.
Qed.

Lemma trimEnd_keeps_head (s : str) :
  match s with
  | c :: _ => JS.isWhiteSpace c = false
  | [] => True
  end ->
  match JS.trimEnd s with
  | c :: _ => JS.isWhiteSpace c = false
  | [] => True
  end.
Proof.
  intros Hd. destruct (trimEnd_split s) as [w [E _]].
  destruct (JS.trimEnd s) as [|c t]; [exact I|].
  rewrite E in Hd. exact Hd.
Qed.

Lemma trim_idem (s : str) : JS.trim (JS.trim s) = JS.trim s.
Proof.
  unfold JS.trim.
  rewrite (trimStart_fixed (JS.trimEnd (JS.trimStart s)))
    by apply trimEnd_keeps_head, trimStart_head.
  apply trimEnd_idem.
Qed.

Lemma trim_chars (s : str) (c : ascii) : In c (JS.trim s) -> In c s.
Proof.
  unfold JS.trim. intros I.
  destruct (trimEnd_split (JS.trimStart s)) as [w [E _]].
  destruct (trimStart_split s) as [v [E' _]].
  rewrite E'. apply in_or_app. right. rewrite E. apply in_or_app. left. exact I.
Qed.

Lemma collapseBang_chars (s : str) (c : ascii) :
  In c (collapseBang s) -> In c s.
Proof.
  unfold collapseBang. destruct s as [|b t]; [auto|].
  destruct (Ascii.eqb b "!"%char); [|auto].
  destruct t as [|w t]; [auto|].
  destruct (JS.isWhiteSpace w); [|auto].
  intros [<-|I]; [left; reflexivity|]. right.
  destruct (trimStart_split (w :: t)) as [v [E _]].
  rewrite E. apply in_or_app. right. exact I.
Qed.

Lemma trim_blank (s : str) :
  forallb JS.isWhiteSpace s = true -> JS.trim s = [].
Proof.
  intros W. unfold JS.trim.
  assert (E : JS.trimStart s = []).
  { rewrite <- (app_nil_r s). rewrite (trimStart_blank _ W). reflexivity. }
  rewrite E. reflexivity.
Qed.

Lemma collapseBang_blank (s : str) :
  forallb JS.isWhiteSpace s = true -> collapseBang s = s.
Proof.
  destruct s as [|c t]; [reflexivity|]. cbn [forallb collapseBang].
  destruct (Ascii.eqb c "!"%char) eqn:E; [|reflexivity].
  apply Ascii.eqb_eq in E. subst c. discriminate.
Qed.

(** X16: every folder [run] passes on is non-empty, has no white space at
    either end and holds no line feed. *)
Theorem tracked_folders_are_trimmed (input x : str) :
  In x (foldersToTrack input) ->
  x <> [] /\ JS.trim x = x /\ ~ In JS.LF x.
Proof.
  unfold foldersToTrack. rewrite filter_In, in_map_iff, negb_true_iff.
  intros [[seg [<- I]] N]. apply eqb_neq in N. split; [exact N|].
  split; [apply trim_idem|].
  intros L. apply trim_chars, collapseBang_chars in L.
  exact (split_segment_no_sep _ _ _ I L).
Qed.

Lemma tracked_folders_witness :
  ("src/lib" : str) <> []
  /\ JS.trim "src/lib" = "src/lib" /\ ~ In JS.LF ("src/lib" : str).
Proof.
  apply (tracked_folders_are_trimmed (" src/lib  " ++ [JS.LF] ++ "pkg") "src/lib").
  vm_compute. auto.
Defined.

Section InputFacts.

Context `{GlobMatcher}.

Lemma blank_input_no_folder (input : str) :
  forallb JS.isWhiteSpace input = true -> foldersToTrack input = [].
Proof.
  intros W. unfold foldersToTrack.
  assert (A : forall seg, In seg (JS.split JS.LF input) ->
                          JS.trim (collapseBang seg) = []).
  { intros seg I.
    assert (B : forallb JS.isWhiteSpace seg = true).
    { apply forallb_forall. intros c C. rewrite forallb_forall in W.
      apply W. exact (split_segment_chars _ _ _ _ I C). }
    rewrite (collapseBang_blank _ B). apply trim_blank, B. }
  induction (JS.split JS.LF input) as [|seg l IH]; [reflexivity|].
  cbn [map filter]. rewrite (A seg (or_introl eq_refl)). cbn [JS.eqb negb].
  apply IH. intros s I. apply A. right; exact I.
Qed.

(** X17: when the [folders] input is empty or holds white space only, no
    folder is tracked and the action does not fail, whatever a readable
    manifest holds. *)
Theorem blank_folders_input_passes
        (lines : list str) (fs : FileSystem) (input : str) :
  forallb JS.isWhiteSpace input = true ->
  foldersToTrack input = [] /\ run (Some lines) fs input = None.
Proof.
  intros W. pose proof (blank_input_no_folder _ W) as E.
  split; [exact E|]. unfold run. rewrite E.
  assert (R : validateCodeOwners (Some lines) fs [] = Resolved).
  { unfold validateCodeOwners.
    cbn [scanAllFiles map allOrNothing List.concat].
    apply conclude_resolved. split; [apply unusedRulesOf_no_folders|].
    reflexivity. }
  rewrite R. reflexivity.
Qed.

End InputFacts.

Lemma blank_folders_input_witness :
  foldersToTrack ("  " ++ [JS.LF] ++ " ") = []
  /\ run (Some ["/pkg @owner" : str]) sampleTree ("  " ++ [JS.LF] ++ " ") = None.
Proof.
  apply (blank_folders_input_passes ["/pkg @owner" : str] sampleTree
                                    ("  " ++ [JS.LF] ++ " ")).
  reflexivity.
Defined.

Lemma trimStart_app (a b : str) :
  JS.trimStart a <> [] -> JS.trimStart (a ++ b) = JS.trimStart a ++ b.
Proof.
  induction a as [|c a IH]; [intros N; exfalso; apply N; reflexivity|].
  cbn [app JS.trimStart]. destruct (JS.isWhiteSpace c); [exact IH|reflexivity].
Qed.

Lemma trimEnd_cons (c : ascii) (s : str) :
  JS.trimEnd s <> [] -> JS.trimEnd (c :: s) = c :: JS.trimEnd s.
Proof.
  unfold JS.trimEnd. intros N. cbn [rev]. rewrite trimStart_app.
  - rewrite rev_app_distr. reflexivity.
  - intros E. apply N. rewrite E. reflexivity.
Qed.

Lemma trimmed_both_ends (s : str) :
  JS.trim s = s -> JS.trimStart s = s /\ JS.trimEnd s = s.
Proof.
  intros T.
  assert (A : JS.trimStart s = s).
  { apply trimStart_fixed. rewrite <- T. unfold JS.trim.
    apply trimEnd_keeps_head, trimStart_head. }
  split; [exact A|]. unfold JS.trim in T. rewrite A in T. exact T.
Qed.

Lemma not_in_includes (s : str) (c : ascii) :
  ~ In c s -> JS.includes s c = false.
Proof.
  intros N. unfold JS.includes. destruct (existsb (Ascii.eqb c) s) eqn:E;
    [|reflexivity].
  apply existsb_exists in E. destruct E as [d [I E]].
  apply Ascii.eqb_eq in E. subst d. tauto.
Qed.

Lemma foldersToTrack_app (a b : str) :
  foldersToTrack (a ++ JS.LF :: b) = foldersToTrack a ++ foldersToTrack b.
Proof.
  unfold foldersToTrack. rewrite split_app, map_app, filter_app. reflexivity.
Qed.

Lemma bang_line_tracked (w name : str) :
  w <> [] -> forallb JS.isWhiteSpace w = true ->
  name <> [] -> JS.trim name = name ->
  JS.trim (collapseBang ("!" ++ w ++ name)) = "!" ++ name.
Proof.
  intros Nw W Nn T.
  destruct (trimmed_both_ends _ T) as [Ts Te].
  assert (C : collapseBang ("!" ++ w ++ name) = "!" ++ name).
  { destruct w as [|c w']; [exfalso; apply Nw; reflexivity|].
    pose proof W as W'. cbn [forallb] in W'. apply andb_true_iff in W'.
    destruct W' as [Wc _].
    change (collapseBang ("!" ++ (c :: w') ++ name))
      with (if JS.isWhiteSpace c
            then "!"%char :: JS.trimStart ((c :: w') ++ name)
            else "!"%char :: (c :: w') ++ name).
    rewrite Wc, (trimStart_blank _ W), Ts. reflexivity. }
  rewrite C. unfold JS.trim.
  change (JS.trimStart ("!" ++ name)) with ("!"%char :: name).
  rewrite trimEnd_cons by (rewrite Te; exact Nn). rewrite Te. reflexivity.
Qed.

Lemma bang_line_alone (w name : str) :
  w <> [] -> forallb JS.isWhiteSpace w = true -> ~ In JS.LF w ->
  name <> [] -> JS.trim name = name -> ~ In JS.LF name ->
  foldersToTrack ("!" ++ w ++ name) = ["!" ++ name].
Proof.
  intros Nw W Lw Nn T Ln. unfold foldersToTrack.
  assert (NoLF : JS.includes ("!" ++ w ++ name) JS.LF = false).
  { apply not_in_includes.
    change ("!" ++ w ++ name) with ("!"%char :: w ++ name).
    intros [E|I]; [discriminate|].
    apply in_app_or in I. destruct I as [I|I]; [exact (Lw I) | exact (Ln I)]. }
  rewrite (split_without_sep _ _ NoLF). cbn [map filter].
  rewrite (bang_line_tracked w name Nw W Nn T). reflexivity.
Qed.

(** X18: wherever it stands in the [folders] input, a line made of [!],
    white space and a name is passed on as [!] directly followed by the
    name, at the place of the line: the white space after the mark is
    dropped, and the lines above and below are handled as they would be on
    their own. *)
Theorem bang_line_loses_its_white_space (w name : str) :
  w <> [] -> forallb JS.isWhiteSpace w = true ->
  name <> [] -> JS.trim name = name ->
  (forall input,
      In ("!" ++ w ++ name) (JS.split JS.LF input) ->
      In ("!" ++ name) (foldersToTrack input))
  /\ (~ In JS.LF w -> ~ In JS.LF name ->
      forall above below : str,
        foldersToTrack (above ++ [JS.LF] ++ ("!" ++ w ++ name) ++ [JS.LF] ++ below)
        = foldersToTrack above ++ ["!" ++ name] ++ foldersToTrack below
        /\ foldersToTrack (("!" ++ w ++ name) ++ [JS.LF] ++ below)
           = ["!" ++ name] ++ foldersToTrack below
        /\ foldersToTrack (above ++ [JS.LF] ++ ("!" ++ w ++ name))
           = foldersToTrack above ++ ["!" ++ name]
        /\ foldersToTrack ("!" ++ w ++ name) = ["!" ++ name]).
Proof.
  intros Nw W Nn T. split.
  - intros input I. unfold foldersToTrack.
    rewrite filter_In, in_map_iff. split.
    + exists ("!" ++ w ++ name). split; [|exact I].
      apply bang_line_tracked; assumption.
    + reflexivity.
  - intros Lw Ln above below.
    pose proof (bang_line_alone w name Nw W Lw Nn T Ln) as A.
    change ([JS.LF] ++ ("!" ++ w ++ name) ++ [JS.LF] ++ below)
      with (JS.LF :: ("!" ++ w ++ name) ++ JS.LF :: below).
    change ([JS.LF] ++ below) with (JS.LF :: below).
    change ([JS.LF] ++ ("!" ++ w ++ name))
      with (JS.LF :: ("!" ++ w ++ name)).
    rewrite !foldersToTrack_app, A. repeat split; reflexivity.
Qed.

Lemma bang_line_witness :
  foldersToTrack ("src" ++ [JS.LF] ++ ("!" ++ " " ++ "vendor")
                        ++ [JS.LF] ++ "docs")
  = foldersToTrack "src" ++ ["!" ++ "vendor"] ++ foldersToTrack "docs".
Proof.
  refine (proj1 (proj2 (bang_line_loses_its_white_space " " "vendor"
                          _ _ _ _) _ _ "src" "docs")).
  - discriminate.
  - reflexivity.
  - discriminate.
  - reflexivity.
  - vm_compute. intuition discriminate.
  - vm_compute. intuition discriminate.
Defined.

(** ** Indented rule lines *)






(** ** What the report names *)

Section NamesFacts.

Context `{GlobMatcher}.

Lemma unused_in_manifest_order (rules : RuleMap) (folders files : list str) :
  Forall (fun e => snd e = 0) rules ->
  unusedRulesOf (creditAll files rules) folders
  = filter (fun rule =>
              (matchCount rule files =? 0)%nat
              && isRuleRelevantToFolders rule folders)
           (keys rules).
Proof.
  rewrite creditAll_counts. unfold unusedRulesOf.
  induction 1 as [|[r c] rules Z _ IH]; [reflexivity|].
  cbn [snd] in Z. subst c. cbn [map filter keys fst]. cbn [Nat.add].
  fold (keys rules).
  destruct ((matchCount r files =? 0)%nat
            && isRuleRelevantToFolders r folders);
    cbn [map fst]; rewrite IH; reflexivity.
Qed.

(** X20: the unused rules are listed in the order of the manifest, each
    once: they are the keys of the map, filtered by "matches no enumerated
    file and is relevant to the folders". *)
Theorem unused_rules_in_manifest_order (lines folders files : list str) :
  unusedRules (computeReport (parseCodeOwnersFile lines) folders files)
  = filter (fun rule =>
              (matchCount rule files =? 0)%nat
              && isRuleRelevantToFolders rule folders)
           (keys (parseCodeOwnersFile lines))
  /\ NoDup (unusedRules
              (computeReport (parseCodeOwnersFile lines) folders files)).
Proof.
  rewrite (computeReport_spec _ _ _ (parseCodeOwnersFile_NoDup lines)).
  cbn [unusedRules].
  rewrite (unused_in_manifest_order _ _ _ (parseCodeOwnersFile_zero lines)).
  split; [reflexivity|].
  apply NoDup_filter, parseCodeOwnersFile_NoDup.
Qed.

(** X21: the report names nothing that is not in the inputs: an uncovered
    file is a regular file under one of the tracked folders, written as that
    folder, a slash and the path below it, and an unused rule is the pattern
    of an accepted line of the manifest. *)
Theorem report_names_come_from_inputs
        (lines : list str) (fs : FileSystem) (folders files : list str) :
  scanAllFiles fs folders = Some files ->
  let report := computeReport (parseCodeOwnersFile lines) folders files in
  (forall f,
      In f (uncoveredFiles report) ->
      exists folder rel,
        In folder folders /\ fileAt (fs folder) rel
        /\ f = folder ++ "/" ++ rel)
  /\ (forall rule,
         In rule (unusedRules report) ->
         exists line,
           In line lines /\ isValidCodeOwnersLine line = true
           /\ rule = pathPattern line).
Proof.
  intros S report. unfold report.
  rewrite (computeReport_spec _ _ _ (parseCodeOwnersFile_NoDup lines)).
  cbn [uncoveredFiles unusedRules]. split.
  - intros f I. apply filter_In in I. destruct I as [I _].
    exact (proj1 (scan_In _ _ _ S f) I).
  - intros rule I.
    apply (unused_after_run _ _ _ _ (parseCodeOwnersFile_zero lines)) in I.
    destruct I as [K _]. unfold parseCodeOwnersFile in K.
    apply parse_keys_from in K. destruct K as [[]|K]. exact K.
Qed.

End NamesFacts.

Lemma report_names_witness :
  let report :=
    computeReport (parseCodeOwnersFile ["/pkg/lib @owner" : str])
                  ["pkg" : str]
                  ["pkg/lib/index.ts" : str; "pkg/unowned/file.ts" : str] in
  (forall f,
      In f (uncoveredFiles report) ->
      exists folder rel,
        In folder ["pkg" : str] /\ fileAt (sampleTree folder) rel
        /\ f = folder ++ "/" ++ rel)
  /\ (forall rule,
         In rule (unusedRules report) ->
         exists line,
           In line ["/pkg/lib @owner" : str]
           /\ isValidCodeOwnersLine line = true
           /\ rule = pathPattern line).
Proof.
  apply (report_names_come_from_inputs
           ["/pkg/lib @owner" : str] sampleTree ["pkg" : str]
           ["pkg/lib/index.ts" : str; "pkg/unowned/file.ts" : str]).
  reflexivity.
Defined.
